(** * Projectile motion on an incline: the physics core and the per-tick
      state machine

    A shallow embedding of [src/utils/physics] (the file holding
    [getInitialState], [calculatePhysics], [checkCollision],
    [predictTrajectory] and [projectToIncline]), of [src/types.ts] and of the
    state-changing callbacks of [src/App.tsx].

    Numbers.  The TypeScript [number] is interpreted as a real number:
    [+], [-], [*], [/] are the field operations of [R], [Math.sin] and
    [Math.cos] are [sin] and [cos], [Math.PI] is [PI], and the comparisons
    [<=], [<], [>=], [>] are the decidable order of [R] turned into
    booleans.  Rounding error of IEEE-754 doubles, [NaN] and the infinities
    are outside this model. *)

From Stdlib Require Import Reals Lra Lia ZArith List Bool String Psatz.
From Stdlib Require DecimalString DecimalNat DecimalFacts.
Import ListNotations.

Local Open Scope R_scope.

(** ** Numbers *)

Module Num.

(** [a <= b], [a < b], [a >= b], [a > b] as the booleans JavaScript
    computes. *)
Definition leb (a b : R) : bool := if Rle_dec a b then true else false.
Definition ltb (a b : R) : bool := if Rlt_dec a b then true else false.
Definition geb (a b : R) : bool := leb b a.
Definition gtb (a b : R) : bool := ltb b a.

(** [Math.round]: the nearest integer, a tie going up. *)
Definition round (a : R) : Z := Int_part (a + / 2).

(** [a !== b] on numbers. *)
Definition neqb (a b : R) : bool := if Req_dec_T a b then false else true.

End Num.

Infix "<=?" := Num.leb (at level 70, no associativity) : R_scope.
Infix "<?" := Num.ltb (at level 70, no associativity) : R_scope.
Infix ">=?" := Num.geb (at level 70, no associativity) : R_scope.
Infix ">?" := Num.gtb (at level 70, no associativity) : R_scope.

(** ** [types.ts] *)

Inductive StartPosition : Type :=
| Bottom
| Top.

Record EnvironmentConfig : Type := mkEnv {
  angleIncline : R;       (* degrees *)
  gravity : R;
  scaleVelocity : R;
  scaleDisplacement : R;
  timeScale : R;
  showPrediction : bool
}.

(** The field [id] of the source is [cid] here ([id] is the identity function
    of the Standard Library). *)
Record ProjectileConfig : Type := mkConfig {
  cid : string;
  name : string;
  color : string;
  v0 : R;
  angleLaunch : R;        (* degrees, relative to the incline *)
  startPos : StartPosition
}.

Record Vector2 : Type := mkVector2 {
  x : R;
  y : R
}.

Record SimulationState : Type := mkState {
  t : R;
  isPlaying : bool;
  isFinished : bool;
  position : Vector2;
  startPosition : Vector2;
  velocity : Vector2;
  path : list Vector2
}.

(** The field [id] of the source is [eid] here. *)
Record ProjectileEntity : Type := mkEntity {
  eid : string;
  config : ProjectileConfig;
  state : SimulationState
}.

(** ** [utils/physics] *)

Definition INCLINE_LENGTH : R := 100.

Definition toRad (deg : R) : R := (deg * PI) / 180.
Definition toDeg (rad : R) : R := (rad * 180) / PI.

(** The object [{ pos, vel }] returned by [getInitialState]. *)
Record InitialState : Type := mkInit {
  pos : Vector2;
  vel : Vector2
}.

Definition getInitialState (pConfig : ProjectileConfig)
    (envConfig : EnvironmentConfig) : InitialState :=
  let theta := toRad (angleIncline envConfig) in
  let phi := toRad (angleLaunch pConfig) in
  let totalAngle := theta + phi in
  let '(startX, startY) :=
    match startPos pConfig with
    | Top => (INCLINE_LENGTH * cos theta, INCLINE_LENGTH * sin theta)
    | Bottom => (0, 0)
    end in
  {| pos := {| x := startX; y := startY |};
     vel := {| x := v0 pConfig * cos totalAngle;
               y := v0 pConfig * sin totalAngle |} |}.

(** The object [{ position, velocity }] returned by [calculatePhysics]. *)
Record Physics : Type := mkPhysics {
  ph_position : Vector2;
  ph_velocity : Vector2
}.

Definition calculatePhysics (time : R) (env : EnvironmentConfig)
    (initialPos initialVel : Vector2) : Physics :=
  let px := x initialPos + x initialVel * time in
  let py := y initialPos + y initialVel * time
            - 0.5 * gravity env * time * time in
  let vx := x initialVel in
  let vy := y initialVel - gravity env * time in
  {| ph_position := {| x := px; y := py |};
     ph_velocity := {| x := vx; y := vy |} |}.

Definition perpDist (p : Vector2) (theta : R) : R :=
  - x p * sin theta + y p * cos theta.

Definition paraDist (p : Vector2) (theta : R) : R :=
  x p * cos theta + y p * sin theta.

Definition checkCollision (p : Vector2) (inclineAngleDeg : R) : bool :=
  let theta := toRad inclineAngleDeg in
  let isBelow := perpDist p theta <=? 0.05 in
  let isOnRamp :=
    (paraDist p theta >=? -5) && (paraDist p theta <=? INCLINE_LENGTH + 20) in
  isBelow && isOnRamp.

(** The loop of [predictTrajectory],
    [for (let t = 0; t <= maxTime; t += dt) { ... }], with the loop variable
    accumulated as the source does.  [points] is the array built so far, in
    push order.  The recursion is on [fuel]; [None] means the fuel ran out
    before the loop left. *)
Definition predict_dt : R := 0.1.
Definition predict_maxTime : R := 10.

Fixpoint predictLoop (fuel : nat) (env : EnvironmentConfig)
    (p0 v : Vector2) (time : R) (points : list Vector2)
    : option (list Vector2) :=
  match fuel with
  | O => None
  | S fuel' =>
      if time <=? predict_maxTime then
        let res := calculatePhysics time env p0 v in
        let points' := points ++ [ph_position res] in
        if checkCollision (ph_position res) (angleIncline env)
           && (time >? 0.1)
        then Some points'
        else if y (ph_position res) <? -10 then Some points'
        else predictLoop fuel' env p0 v (time + predict_dt) points'
      else Some points
  end.

Definition predictTrajectory_fuel (fuel : nat) (pConfig : ProjectileConfig)
    (env : EnvironmentConfig) : option (list Vector2) :=
  let init := getInitialState pConfig env in
  predictLoop fuel env (pos init) (vel init) 0 [].

(** The loop variable grows by [0.1] from [0] and the loop is left once it
    passes [10]: 101 passes at most, whatever the inputs. *)
Definition predict_fuel : nat := 128.

Definition predictTrajectory (pConfig : ProjectileConfig)
    (env : EnvironmentConfig) : option (list Vector2) :=
  predictTrajectory_fuel predict_fuel pConfig env.

(** The objects [{ x, y, mag }] returned by [projectToIncline]. *)
Record Component : Type := mkComponent {
  comp_x : R;
  comp_y : R;
  mag : R
}.

Record Projection : Type := mkProjection {
  parallel : Component;
  perpendicular : Component
}.

Definition projectToIncline (vec : Vector2) (inclineAngleDeg : R)
    : Projection :=
  let theta := toRad inclineAngleDeg in
  let uPara := {| x := cos theta; y := sin theta |} in
  let uPerp := {| x := - sin theta; y := cos theta |} in
  let vParaMag := x vec * x uPara + y vec * y uPara in
  let vPerpMag := x vec * x uPerp + y vec * y uPerp in
  {| parallel :=
       {| comp_x := x uPara * vParaMag; comp_y := y uPara * vParaMag;
          mag := vParaMag |};
     perpendicular :=
       {| comp_x := x uPerp * vPerpMag; comp_y := y uPerp * vPerpMag;
          mag := vPerpMag |} |}.

(** ** [App.tsx]: the projectile list and its callbacks *)

Definition COLORS : list string :=
  ["#ef4444"; "#3b82f6"; "#10b981"; "#f59e0b"; "#8b5cf6"; "#ec4899"]%string.

(** [Partial<ProjectileConfig>]: every field optional. *)
Record PartialConfig : Type := mkPartial {
  p_cid : option string;
  p_name : option string;
  p_color : option string;
  p_v0 : option R;
  p_angleLaunch : option R;
  p_startPos : option StartPosition
}.

Definition noUpdates : PartialConfig :=
  {| p_cid := None; p_name := None; p_color := None;
     p_v0 := None; p_angleLaunch := None; p_startPos := None |}.

(** [{ ...c, ...u }] *)
Definition spread (c : ProjectileConfig) (u : PartialConfig)
    : ProjectileConfig :=
  {| cid := match p_cid u with Some v => v | None => cid c end;
     name := match p_name u with Some v => v | None => name c end;
     color := match p_color u with Some v => v | None => color c end;
     v0 := match p_v0 u with Some v => v | None => v0 c end;
     angleLaunch :=
       match p_angleLaunch u with Some v => v | None => angleLaunch c end;
     startPos :=
       match p_startPos u with Some v => v | None => startPos c end |}.

(** The state every reset writes: [t: 0], the two flags as given, and
    position, start position, velocity and path from [init]. *)
Definition freshState (playing : bool) (init : InitialState)
    : SimulationState :=
  {| t := 0;
     isPlaying := playing;
     isFinished := false;
     position := pos init;
     startPosition := pos init;
     velocity := vel init;
     path := [pos init] |}.

Definition createProjectile (env : EnvironmentConfig)
    (id nm col : string) (partialConfig : PartialConfig)
    : ProjectileEntity :=
  let cfg :=
    spread {| cid := id; name := nm; color := col;
              v0 := 25; angleLaunch := 45; startPos := Bottom |}
           partialConfig in
  let init := getInitialState cfg env in
  {| eid := id; config := cfg; state := freshState false init |}.

(** The callback [updateProjectileConfig] maps over the list. *)
Definition updateProjectileConfig1 (env : EnvironmentConfig) (id : string)
    (updates : PartialConfig) (p : ProjectileEntity) : ProjectileEntity :=
  if negb (String.eqb (eid p) id) then p
  else
    let newConfig := spread (config p) updates in
    let init := getInitialState newConfig env in
    {| eid := eid p; config := newConfig; state := freshState false init |}.

(** The callback of the effect that runs when [env.angleIncline] or
    [env.gravity] changed. *)
Definition envEffect1 (env : EnvironmentConfig) (p : ProjectileEntity)
    : ProjectileEntity :=
  if isPlaying (state p) then p
  else
    let init := getInitialState (config p) env in
    {| eid := eid p; config := config p;
       state :=
         {| t := t (state p);
            isPlaying := isPlaying (state p);
            isFinished := isFinished (state p);
            position := pos init;
            startPosition := pos init;
            velocity := vel init;
            path := [pos init] |} |}.

(** The callback of [launchProjectile]. *)
Definition launchProjectile1 (env : EnvironmentConfig) (id : string)
    (p : ProjectileEntity) : ProjectileEntity :=
  if negb (String.eqb (eid p) id) then p
  else if isPlaying (state p) then
    (* toggle pause *)
    {| eid := eid p; config := config p;
       state :=
         {| t := t (state p);
            isPlaying := false;
            isFinished := isFinished (state p);
            position := position (state p);
            startPosition := startPosition (state p);
            velocity := velocity (state p);
            path := path (state p) |} |}
  else if isFinished (state p) then
    let init := getInitialState (config p) env in
    {| eid := eid p; config := config p; state := freshState true init |}
  else
    {| eid := eid p; config := config p;
       state :=
         {| t := t (state p);
            isPlaying := true;
            isFinished := isFinished (state p);
            position := position (state p);
            startPosition := startPosition (state p);
            velocity := velocity (state p);
            path := path (state p) |} |}.

Definition launchAll1 (env : EnvironmentConfig) (p : ProjectileEntity)
    : ProjectileEntity :=
  let init := getInitialState (config p) env in
  {| eid := eid p; config := config p; state := freshState true init |}.

Definition resetAll1 (env : EnvironmentConfig) (p : ProjectileEntity)
    : ProjectileEntity :=
  let init := getInitialState (config p) env in
  {| eid := eid p; config := config p; state := freshState false init |}.

(** The quantities one pass of [animate] computes for a projectile. *)
Definition tick_dt (env : EnvironmentConfig) : R := (1 / 60) * timeScale env.

Definition tick_nextT (env : EnvironmentConfig) (p : ProjectileEntity) : R :=
  t (state p) + tick_dt env.

Definition tick_physics (env : EnvironmentConfig) (p : ProjectileEntity)
    : Physics :=
  let init := getInitialState (config p) env in
  calculatePhysics (tick_nextT env p) env (startPosition (state p))
    (vel init).

(** The callback of [animate]: one tick of one projectile. *)
Definition animate1 (env : EnvironmentConfig) (p : ProjectileEntity)
    : ProjectileEntity :=
  if negb (isPlaying (state p)) || isFinished (state p) then p
  else
    let nextT := tick_nextT env p in
    let physics := tick_physics env p in
    let hasHit := checkCollision (ph_position physics) (angleIncline env) in
    if hasHit && (nextT >? 0.1) then
      {| eid := eid p; config := config p;
         state :=
           {| t := nextT;
              isPlaying := false;
              isFinished := true;
              position := ph_position physics;
              startPosition := startPosition (state p);
              velocity := {| x := 0; y := 0 |};
              path := path (state p) |} |}
    else if (y (ph_position physics) <? -30)
            || (x (ph_position physics) >? 250) then
      {| eid := eid p; config := config p;
         state :=
           {| t := t (state p);
              isPlaying := false;
              isFinished := true;
              position := position (state p);
              startPosition := startPosition (state p);
              velocity := velocity (state p);
              path := path (state p) |} |}
    else
      let shouldAddPoint :=
        Z.eqb (Z.rem (Num.round (nextT * 60)) 5) 0 in
      let newPath :=
        if shouldAddPoint then path (state p) ++ [ph_position physics]
        else path (state p) in
      {| eid := eid p; config := config p;
         state :=
           {| t := nextT;
              isPlaying := isPlaying (state p);
              isFinished := isFinished (state p);
              position := ph_position physics;
              startPosition := startPosition (state p);
              velocity := ph_velocity physics;
              path := newPath |} |}.

(** The component's state that the callbacks read and write: the
    environment and the projectile list. *)
Record App : Type := mkApp {
  app_env : EnvironmentConfig;
  projectiles : list ProjectileEntity
}.

Definition initialEnv : EnvironmentConfig :=
  {| angleIncline := 30; gravity := 9.81; scaleVelocity := 0.5;
     scaleDisplacement := 1.0; timeScale := 1.0; showPrediction := true |}.

(** What the user and the frame clock can do.  [AddProjectile] carries the
    id, name and colour that [addProjectile] derives from its counter and
    from the list length; [SetEnv] is the [setEnv] handed to the panels. *)
Inductive Action : Type :=
| AddProjectile (id nm col : string)
| RemoveProjectile (id : string)
| UpdateProjectileConfig (id : string) (updates : PartialConfig)
| SetEnv (env' : EnvironmentConfig)
| LaunchProjectile (id : string)
| LaunchAll
| ResetAll
| Animate.

Definition step (a : App) (act : Action) : App :=
  let env := app_env a in
  let ps := projectiles a in
  match act with
  | AddProjectile id nm col =>
      mkApp env (ps ++ [createProjectile env id nm col noUpdates])
  | RemoveProjectile id =>
      if (List.length ps <=? 1)%nat then a
      else mkApp env (filter (fun p => negb (String.eqb (eid p) id)) ps)
  | UpdateProjectileConfig id updates =>
      mkApp env (map (updateProjectileConfig1 env id updates) ps)
  | SetEnv env' =>
      if Num.neqb (angleIncline env') (angleIncline env)
         || Num.neqb (gravity env') (gravity env)
      then mkApp env' (map (envEffect1 env') ps)
      else mkApp env' ps
  | LaunchProjectile id => mkApp env (map (launchProjectile1 env id) ps)
  | LaunchAll => mkApp env (map (launchAll1 env) ps)
  | ResetAll => mkApp env (map (resetAll1 env) ps)
  | Animate => mkApp env (map (animate1 env) ps)
  end.

(** The first render: one projectile, then the environment effect, which
    also runs on mount. *)
Definition initialApp : App :=
  mkApp initialEnv
    (map (envEffect1 initialEnv)
       [createProjectile initialEnv "p1" "物体 A" (nth 0 COLORS EmptyString)
          noUpdates]).

Definition run (acts : list Action) : App := fold_left step acts initialApp.

(** The legal flag combinations of the data model. *)
Definition legalFlags (s : SimulationState) : Prop :=
  (isPlaying s = false /\ isFinished s = false)
  \/ (isPlaying s = true /\ isFinished s = false)
  \/ (isPlaying s = false /\ isFinished s = true).

Definition allLegal (a : App) : Prop :=
  Forall (fun p => legalFlags (state p)) (projectiles a).

(** The value of the loop variable of [predictTrajectory] on pass [k],
    started from [time]: [predict_dt] added [k] times. *)
Fixpoint loopTime (k : nat) (time : R) : R :=
  match k with
  | O => time
  | S k' => loopTime k' (time + predict_dt)
  end.

(** The two [break] tests of the loop body, at loop variable [time]. *)
Definition predictStop (env : EnvironmentConfig) (p0 v : Vector2)
    (time : R) : bool :=
  let res := calculatePhysics time env p0 v in
  (checkCollision (ph_position res) (angleIncline env) && (time >? 0.1))
  || (y (ph_position res) <? -10).

(** The scenario of the spec: launch at 25 m/s, 45 degrees above a 30 degree
    incline, from its foot. *)
Definition scenarioConfig (id nm col : string) : ProjectileConfig :=
  {| cid := id; name := nm; color := col;
     v0 := 25; angleLaunch := 45; startPos := Bottom |}.

Definition scenarioEnv (sv sd ts : R) (sp : bool) : EnvironmentConfig :=
  {| angleIncline := 30; gravity := 9.81; scaleVelocity := sv;
     scaleDisplacement := sd; timeScale := ts; showPrediction := sp |}.

(** The position the integrator gives at [time] from the resolved initial
    state of [cfg] in [env]. *)
Definition positionAt (cfg : ProjectileConfig) (env : EnvironmentConfig)
    (time : R) : Vector2 :=
  let init := getInitialState cfg env in
  ph_position (calculatePhysics time env (pos init) (vel init)).

(** ** Sample inputs *)

Definition origin : Vector2 := {| x := 0; y := 0 |}.

(** A flat incline under the default gravity. *)
Definition flatEnv : EnvironmentConfig :=
  {| angleIncline := 0; gravity := 9.81; scaleVelocity := 0.5;
     scaleDisplacement := 1.0; timeScale := 1.0; showPrediction := true |}.

(** A projectile released at rest from the foot of the incline, in flight
    for one second. *)
Definition droppedProjectile : ProjectileEntity :=
  {| eid := "p1";
     config := {| cid := "p1"; name := "A"; color := "#ef4444";
                  v0 := 0; angleLaunch := 0; startPos := Bottom |};
     state := {| t := 1; isPlaying := true; isFinished := false;
                 position := {| x := 0; y := -4.905 |};
                 startPosition := origin;
                 velocity := {| x := 0; y := -9.81 |};
                 path := [origin] |} |}.

(** A projectile launched along a flat incline at 30 m/s, in flight for ten
    seconds. *)
Definition fastProjectile : ProjectileEntity :=
  {| eid := "p2";
     config := {| cid := "p2"; name := "B"; color := "#3b82f6";
                  v0 := 30; angleLaunch := 0; startPos := Bottom |};
     state := {| t := 10; isPlaying := true; isFinished := false;
                 position := {| x := 300; y := -490.5 |};
                 startPosition := origin;
                 velocity := {| x := 30; y := -98.1 |};
                 path := [origin] |} |}.

(** The same projectile after it has landed. *)
Definition landedProjectile : ProjectileEntity :=
  {| eid := "p1";
     config := {| cid := "p1"; name := "A"; color := "#ef4444";
                  v0 := 25; angleLaunch := 45; startPos := Bottom |};
     state := {| t := 4.2; isPlaying := false; isFinished := true;
                 position := {| x := 27; y := 15 |};
                 startPosition := origin;
                 velocity := origin;
                 path := [origin] |} |}.

(** ** Auxiliary notions for the application state *)

(** The path starts at the stored start position. *)
Definition pathAnchored (s : SimulationState) : Prop :=
  exists rest, path s = startPosition s :: rest.

(** The ids and configs of the projectile list, in order. *)
Definition idsAndConfigs (a : App) : list (string * ProjectileConfig) :=
  map (fun p => (eid p, config p)) (projectiles a).

(** [n] frames of [animate] applied to one projectile. *)
Definition ticks (env : EnvironmentConfig) (n : nat) (p : ProjectileEntity)
    : ProjectileEntity :=
  Nat.iter n (animate1 env) p.

(** ** [components/SimulationCanvas.tsx]: coordinates and dragging *)

Definition SCALE : R := 6.
Definition PADDING : R := 60.
Definition VIEW_WIDTH : R := 800.
Definition VIEW_HEIGHT : R := 600.

Definition toScreen (p : Vector2) : Vector2 :=
  {| x := PADDING + x p * SCALE;
     y := VIEW_HEIGHT - PADDING - y p * SCALE |}.

Definition fromScreen (s : Vector2) : Vector2 :=
  {| x := (x s - PADDING) / SCALE;
     y := (VIEW_HEIGHT - PADDING - y s) / SCALE |}.

(** [Math.atan2 (dy, dx)]: the angle of the point [(dx, dy)], in
    [(-PI, PI]]. *)
Definition atan2 (dy dx : R) : R :=
  if 0 <? dx then atan (dy / dx)
  else if dx <? 0 then
    if 0 <=? dy then atan (dy / dx) + PI else atan (dy / dx) - PI
  else if 0 <? dy then PI / 2
  else if dy <? 0 then - (PI / 2)
  else 0.

(** [{ ...prev, angleIncline: deg }] *)
Definition withAngleIncline (env : EnvironmentConfig) (deg : R)
    : EnvironmentConfig :=
  {| angleIncline := deg; gravity := gravity env;
     scaleVelocity := scaleVelocity env;
     scaleDisplacement := scaleDisplacement env;
     timeScale := timeScale env; showPrediction := showPrediction env |}.

(** The normalisation of the relative launch angle in [handlePointerMove]:
    two successive [if]s. *)
Definition normalizeBeta (newBeta : R) : R :=
  let b1 := if newBeta >? 180 then newBeta - 360 else newBeta in
  if b1 <? -180 then b1 + 360 else b1.

(** [handlePointerMove]: what a pointer move asks of the application.
    [dragTarget] is the drag state ([None] for [null]); [rect] the bounding
    rectangle's left and top, [None] when there is no svg element;
    [client] the pointer's [clientX], [clientY].  The result is the call the
    handler makes: [setEnv], [updateProjectileConfig], or none. *)
Definition handlePointerMove (dragTarget : option string)
    (rect : option Vector2) (client : Vector2) (env : EnvironmentConfig)
    (ps : list ProjectileEntity) : option Action :=
  match dragTarget, rect with
  | None, _ => None
  | Some EmptyString, _ => None
  | Some _, None => None
  | Some target, Some r =>
      let mousePhysics :=
        fromScreen {| x := x client - x r; y := y client - y r |} in
      if String.eqb target "incline" then
        let angle := atan2 (y mousePhysics) (x mousePhysics) in
        let deg := toDeg angle in
        let deg := Rmin (Rmax deg 0) 80 in
        Some (SetEnv (withAngleIncline env deg))
      else
        match find (fun p => String.eqb (eid p) target) ps with
        | Some proj =>
            if negb (isPlaying (state proj)) then
              let dx := x mousePhysics - x (position (state proj)) in
              let dy := y mousePhysics - y (position (state proj)) in
              let magnitude := sqrt (dx * dx + dy * dy) in
              let newV0 :=
                Rmin (Rmax (magnitude / scaleVelocity env) 1) 60 in
              let globalAngle := atan2 dy dx in
              let newBeta :=
                normalizeBeta (toDeg globalAngle - angleIncline env) in
              Some (UpdateProjectileConfig target
                      {| p_cid := None; p_name := None; p_color := None;
                         p_v0 := Some newV0;
                         p_angleLaunch := Some newBeta;
                         p_startPos := None |})
            else None
        | None => None
        end
  end.

(** ** [components/StatsPanel.tsx]: the displayed quantities *)

Definition statsSpeed (s : SimulationState) : R :=
  sqrt (x (velocity s) ^ 2 + y (velocity s) ^ 2).

Definition statsDisplacement (s : SimulationState) : Vector2 :=
  {| x := x (position s) - x (startPosition s);
     y := y (position s) - y (startPosition s) |}.

Definition statsDist (s : SimulationState) : R :=
  sqrt (x (statsDisplacement s) ^ 2 + y (statsDisplacement s) ^ 2).

(** ** [App.tsx]: selection, the id counter, adding and removing *)

(** The decimal digits of a counter value, as the template literal
    [`p${n}`] prints them. *)
Definition showNat (n : nat) : string :=
  DecimalString.NilZero.string_of_uint (Nat.to_uint n).

(** The component's state with the selection and the id counter.  [core]
    holds the environment and the projectile list. *)
Record Shell : Type := mkShell {
  core : App;
  activeId : string;
  projectIdCounter : nat
}.

(** [addProjectile].  The display name, which the source builds from a
    UTF-16 code unit, is carried as [nm]. *)
Definition addProjectile (nm : string) (s : Shell) : Shell :=
  let ps := projectiles (core s) in
  let nextId := ("p" ++ showNat (projectIdCounter s + 1))%string in
  let col := nth (List.length ps mod List.length COLORS) COLORS
               EmptyString in
  {| core := step (core s) (AddProjectile nextId nm col);
     activeId := nextId;
     projectIdCounter := projectIdCounter s + 1 |}.

(** [removeProjectile]: the fallback selection is the first projectile of
    the list as it was before the removal. *)
Definition removeProjectile (id : string) (s : Shell) : Shell :=
  match projectiles (core s) with
  | [] => s
  | [_] => s
  | first :: _ :: _ =>
      {| core := step (core s) (RemoveProjectile id);
         activeId :=
           if String.eqb (activeId s) id then eid first else activeId s;
         projectIdCounter := projectIdCounter s |}
  end.

Definition withCore (s : Shell) (a : App) : Shell :=
  {| core := a; activeId := activeId s;
     projectIdCounter := projectIdCounter s |}.

(** Everything the panels, the canvas and the frame clock can call. *)
Inductive ShellAction : Type :=
| ClickAdd (nm : string)
| ClickRemove (id : string)
| Select (id : string)
| EditConfig (id : string) (updates : PartialConfig)
| ChangeEnv (env' : EnvironmentConfig)
| ClickLaunch (id : string)
| ClickLaunchAll
| ClickResetAll
| Frame.

Definition shellStep (s : Shell) (act : ShellAction) : Shell :=
  match act with
  | ClickAdd nm => addProjectile nm s
  | ClickRemove id => removeProjectile id s
  | Select id =>
      {| core := core s; activeId := id;
         projectIdCounter := projectIdCounter s |}
  | EditConfig id updates =>
      withCore s (step (core s) (UpdateProjectileConfig id updates))
  | ChangeEnv env' => withCore s (step (core s) (SetEnv env'))
  | ClickLaunch id => withCore s (step (core s) (LaunchProjectile id))
  | ClickLaunchAll => withCore s (step (core s) LaunchAll)
  | ClickResetAll => withCore s (step (core s) ResetAll)
  | Frame => withCore s (step (core s) Animate)
  end.

Definition initialShell : Shell :=
  {| core := initialApp; activeId := "p1"; projectIdCounter := 1 |}.

Definition runShell (acts : list ShellAction) : Shell :=
  fold_left shellStep acts initialShell.

(** [projectiles.find(p => p.id === activeId)], the selected projectile
    handed to the panels. *)
Definition activeProjectile (s : Shell) : option ProjectileEntity :=
  find (fun p => String.eqb (eid p) (activeId s)) (projectiles (core s)).

(** The ids in the list are distinct, each is ["p"] followed by a counter
    value between 1 and the current counter, and the list is not empty. *)
Definition idsWellFormed (s : Shell) : Prop :=
  let ids := map eid (projectiles (core s)) in
  NoDup ids
  /\ (forall id, In id ids ->
        exists k, (1 <= k <= projectIdCounter s)%nat
                  /\ id = ("p" ++ showNat k)%string)
  /\ ids <> [].

(** Decimal literals are rationals injected by [Q2R]; [field] wants them as
    quotients of integers. *)
Ltac dfield :=
  unfold Q2R; cbn [QArith_base.Qnum QArith_base.Qden]; field.

(** * Properties *)

(** ** Comparisons *)

Lemma leb_true a b : (a <=? b) = true <-> a <= b.
Proof.
  unfold Num.leb; destruct (Rle_dec a b); split; intros; easy.
Qed.

Lemma leb_false a b : (a <=? b) = false <-> b < a.
Proof.
  unfold Num.leb; destruct (Rle_dec a b); split; intros; try easy; lra.
Qed.

Lemma ltb_true a b : (a <? b) = true <-> a < b.
Proof.
  unfold Num.ltb; destruct (Rlt_dec a b); split; intros; easy.
Qed.

Lemma ltb_false a b : (a <? b) = false <-> b <= a.
Proof.
  unfold Num.ltb; destruct (Rlt_dec a b); split; intros; try easy; lra.
Qed.

Lemma geb_true a b : (a >=? b) = true <-> b <= a.
Proof. apply leb_true. Qed.

Lemma geb_false a b : (a >=? b) = false <-> a < b.
Proof. apply leb_false. Qed.

Lemma gtb_true a b : (a >? b) = true <-> b < a.
Proof. apply ltb_true. Qed.

Lemma gtb_false a b : (a >? b) = false <-> a <= b.
Proof. apply ltb_false. Qed.

(** ** Angles *)

Lemma toRad_0 : toRad 0 = 0.
Proof. unfold toRad; field. Qed.

Lemma toRad_30 : toRad 30 = PI / 6.
Proof. unfold toRad; field. Qed.

Lemma toRad_45 : toRad 45 = PI / 4.
Proof. unfold toRad; field. Qed.

Lemma sin_cos_1 a : sin a * sin a + cos a * cos a = 1.
Proof. generalize (sin2_cos2 a); unfold Rsqr; tauto. Qed.

Lemma sqrt3_sq : sqrt 3 * sqrt 3 = 3.
Proof. apply sqrt_def; lra. Qed.

Lemma sqrt3_bounds : 1.732 < sqrt 3 < 1.7321.
Proof.
  pose proof sqrt3_sq as H; pose proof (sqrt_pos 3) as P.
  split; nra.
Qed.

(** ** The kinematic integrator *)

Lemma calculatePhysics_closed_form time env p0 vel0 :
  calculatePhysics time env p0 vel0 =
  {| ph_position :=
       {| x := x p0 + x vel0 * time;
          y := y p0 + y vel0 * time - 0.5 * gravity env * time ^ 2 |};
     ph_velocity :=
       {| x := x vel0; y := y vel0 - gravity env * time |} |}.
Proof.
  unfold calculatePhysics; cbv zeta.
  do 3 f_equal; ring.
Qed.

(** C1. For every elapsed time [time >= 0], gravity, initial position [p0]
    and initial velocity [vel0], [calculatePhysics] returns the position
    [(p0.x + vel0.x * time, p0.y + vel0.y * time - 0.5 * g * time^2)] and the
    velocity [(vel0.x, vel0.y - g * time)]; the horizontal position has no
    term in [g]. *)
Theorem calculatePhysics_kinematics (time : R) (env : EnvironmentConfig)
    (p0 vel0 : Vector2) :
  0 <= time ->
  let r := calculatePhysics time env p0 vel0 in
  x (ph_position r) = x p0 + x vel0 * time
  /\ y (ph_position r)
     = y p0 + y vel0 * time - 0.5 * gravity env * time ^ 2
  /\ x (ph_velocity r) = x vel0
  /\ y (ph_velocity r) = y vel0 - gravity env * time.
Proof.
  intros _ r; subst r.
  rewrite calculatePhysics_closed_form; cbn [ph_position ph_velocity x y].
  repeat split.
Qed.

Lemma calculatePhysics_kinematics_witness :
  let env := mkEnv 30 9.81 0.5 1 1 true in
  let r := calculatePhysics 2 env (mkVector2 1 3) (mkVector2 4 5) in
  x (ph_position r) = 1 + 4 * 2
  /\ y (ph_position r) = 3 + 5 * 2 - 0.5 * 9.81 * 2 ^ 2
  /\ x (ph_velocity r) = 4
  /\ y (ph_velocity r) = 5 - 9.81 * 2.
Proof.
  apply (calculatePhysics_kinematics 2 (mkEnv 30 9.81 0.5 1 1 true)
           (mkVector2 1 3) (mkVector2 4 5)).
  lra.
Defined.

(** ** The initial-state resolver *)

(** C3. [getInitialState] returns the start position [(0,0)] for [Bottom]
    and [(100 cos theta, 100 sin theta)] for [Top], and the start velocity
    [(v0 cos (theta + beta), v0 sin (theta + beta))], with [theta] and [beta]
    the incline and launch angles in radians; started [Top] on a 30 degree
    incline the position is [(50 sqrt 3, 50)], within 0.01 of (86.6, 50.0). *)
Theorem getInitialState_spec (cfg : ProjectileConfig)
    (env : EnvironmentConfig) (id nm col : string) (speed b : R) :
  let theta := toRad (angleIncline env) in
  let beta := toRad (angleLaunch cfg) in
  pos (getInitialState cfg env)
  = match startPos cfg with
    | Bottom => {| x := 0; y := 0 |}
    | Top => {| x := 100 * cos theta; y := 100 * sin theta |}
    end
  /\ vel (getInitialState cfg env)
     = {| x := v0 cfg * cos (theta + beta);
          y := v0 cfg * sin (theta + beta) |}
  /\ (let top30 :=
        pos (getInitialState (mkConfig id nm col speed b Top)
               (mkEnv 30 (gravity env) (scaleVelocity env)
                  (scaleDisplacement env) (timeScale env)
                  (showPrediction env))) in
      Rabs (x top30 - 86.6) < 0.01 /\ y top30 = 50.0).
Proof.
  intros theta beta; subst theta beta.
  unfold getInitialState, INCLINE_LENGTH.
  cbn [angleIncline angleLaunch startPos v0].
  split; [destruct (startPos cfg); reflexivity|].
  split; [destruct (startPos cfg); reflexivity|].
  cbn [pos x y]. rewrite toRad_30, cos_PI6, sin_PI6.
  pose proof sqrt3_bounds.
  split; [apply Rabs_def1; lra | lra].
Qed.

(** ** The collision detector *)

Lemma checkCollision_true p a :
  checkCollision p a = true <->
  perpDist p (toRad a) <= 0.05
  /\ -5 <= paraDist p (toRad a) <= INCLINE_LENGTH + 20.
Proof.
  unfold checkCollision; cbv zeta.
  rewrite !andb_true_iff, !leb_true, geb_true. tauto.
Qed.

Lemma checkCollision_false_above p a :
  0.05 < perpDist p (toRad a) -> checkCollision p a = false.
Proof.
  intros H. unfold checkCollision; cbv zeta.
  apply leb_false in H. rewrite H. reflexivity.
Qed.

Lemma checkCollision_origin a : checkCollision {| x := 0; y := 0 |} a = true.
Proof.
  apply checkCollision_true.
  unfold perpDist, paraDist, INCLINE_LENGTH; cbn [x y]. lra.
Qed.

(** C4. [checkCollision] is true exactly when the signed perpendicular
    distance is at most the tolerance 0.05 and the distance along the incline
    lies between -5 and 100 + 20; at incline angle 0 every point [(x0, 0)]
    with [-5 <= x0 <= 120] collides and no point [(x0, 1)] does. *)
Theorem checkCollision_spec (p : Vector2) (a x0 : R) :
  (checkCollision p a = true <->
     - x p * sin (toRad a) + y p * cos (toRad a) <= 0.05
     /\ -5 <= x p * cos (toRad a) + y p * sin (toRad a) <= 100 + 20)
  /\ (0 < 0.05 /\ -5 < 0 /\ 100 < 100 + 20 /\ INCLINE_LENGTH = 100)
  /\ (-5 <= x0 <= 120 -> checkCollision {| x := x0; y := 0.0 |} 0 = true)
  /\ checkCollision {| x := x0; y := 1.0 |} 0 = false.
Proof.
  split; [apply checkCollision_true|].
  split; [unfold INCLINE_LENGTH; lra|].
  split.
  - intros H. apply checkCollision_true.
    unfold perpDist, paraDist, INCLINE_LENGTH; cbn [x y].
    rewrite toRad_0, sin_0, cos_0. lra.
  - apply checkCollision_false_above.
    unfold perpDist; cbn [x y]. rewrite toRad_0, sin_0, cos_0. lra.
Qed.

Lemma checkCollision_spec_witness :
  checkCollision {| x := 60; y := 0.0 |} 0 = true.
Proof.
  apply (proj1 (proj2 (proj2
           (checkCollision_spec {| x := 0; y := 0 |} 0 60)))).
  lra.
Defined.

(** ** The incline frame transform *)

Lemma projectToIncline_sum vec a :
  let r := projectToIncline vec a in
  comp_x (parallel r) + comp_x (perpendicular r) = x vec
  /\ comp_y (parallel r) + comp_y (perpendicular r) = y vec.
Proof.
  unfold projectToIncline; cbn.
  pose proof (sin_cos_1 (toRad a)) as H.
  set (s := sin (toRad a)) in *; set (c := cos (toRad a)) in *.
  split.
  - transitivity (x vec * (s * s + c * c)); [ring | rewrite H; ring].
  - transitivity (y vec * (s * s + c * c)); [ring | rewrite H; ring].
Qed.

(** C5. For every vector and every incline angle in [0,80] degrees, the
    parallel and perpendicular component vectors returned by
    [projectToIncline] add up to the vector, over the reals exactly; the
    parallel component lies along [(cos theta, sin theta)] and the
    perpendicular one along [(- sin theta, cos theta)], each scaled by the
    dot product of the vector with that unit vector. *)
Theorem projectToIncline_roundtrip (vec : Vector2) (a : R) :
  0 <= a <= 80 ->
  let theta := toRad a in
  let r := projectToIncline vec a in
  (comp_x (parallel r) + comp_x (perpendicular r) = x vec
   /\ comp_y (parallel r) + comp_y (perpendicular r) = y vec)
  /\ (mag (parallel r) = x vec * cos theta + y vec * sin theta
      /\ comp_x (parallel r) = cos theta * mag (parallel r)
      /\ comp_y (parallel r) = sin theta * mag (parallel r))
  /\ (mag (perpendicular r) = x vec * - sin theta + y vec * cos theta
      /\ comp_x (perpendicular r) = - sin theta * mag (perpendicular r)
      /\ comp_y (perpendicular r) = cos theta * mag (perpendicular r)).
Proof.
  intros _ theta r. split; [apply projectToIncline_sum|].
  subst r theta; unfold projectToIncline; cbn. repeat split.
Qed.

Lemma projectToIncline_roundtrip_witness :
  let r := projectToIncline {| x := 3; y := 4 |} 30 in
  comp_x (parallel r) + comp_x (perpendicular r) = 3
  /\ comp_y (parallel r) + comp_y (perpendicular r) = 4.
Proof.
  apply (projectToIncline_roundtrip {| x := 3; y := 4 |} 30).
  lra.
Defined.

(** ** One tick of one projectile *)

Lemma animate1_idle env p :
  isPlaying (state p) = false \/ isFinished (state p) = true ->
  animate1 env p = p.
Proof.
  unfold animate1; intros [H | H]; rewrite H; cbn.
  - reflexivity.
  - now rewrite orb_true_r.
Qed.

(** C2. For a projectile that is playing and not finished, one tick takes
    the next time [t + (1/60) * timeScale], resolves the initial velocity
    again from the current config and environment, evaluates the integrator
    at the next time from the stored start position, and, when that position
    collides and the next time exceeds 0.1, yields the finished state with
    the collision position, velocity (0,0) and the next time recorded. *)
Theorem animate1_collision (env : EnvironmentConfig) (p : ProjectileEntity) :
  isPlaying (state p) = true ->
  isFinished (state p) = false ->
  let nextT := t (state p) + (1 / 60) * timeScale env in
  let init := getInitialState (config p) env in
  let physics :=
    calculatePhysics nextT env (startPosition (state p)) (vel init) in
  checkCollision (ph_position physics) (angleIncline env) = true ->
  nextT > 0.1 ->
  animate1 env p =
  {| eid := eid p; config := config p;
     state := {| t := nextT;
                 isPlaying := false;
                 isFinished := true;
                 position := ph_position physics;
                 startPosition := startPosition (state p);
                 velocity := {| x := 0; y := 0 |};
                 path := path (state p) |} |}.
Proof.
  intros Hp Hf nextT init physics Hhit Ht.
  unfold animate1. rewrite Hp, Hf; cbn [negb orb].
  fold init. unfold tick_physics, tick_nextT, tick_dt.
  fold nextT init physics. rewrite Hhit.
  apply gtb_true in Ht. rewrite Ht. reflexivity.
Qed.

Lemma animate1_collision_witness :
  let after := state (animate1 flatEnv droppedProjectile) in
  isPlaying after = false /\ isFinished after = true
  /\ velocity after = {| x := 0; y := 0 |}
  /\ t after = 1 + (1 / 60) * 1.0.
Proof.
  rewrite (animate1_collision flatEnv droppedProjectile).
  - cbn. repeat split.
  - reflexivity.
  - reflexivity.
  - apply checkCollision_true.
    unfold perpDist, paraDist, INCLINE_LENGTH; cbn.
    rewrite !toRad_0, Rplus_0_r, sin_0, cos_0. lra.
  - cbn. lra.
Defined.

(** C9. For a playing projectile whose tick position is not a collision hit
    but lies below [y = -30] or beyond [x = 250], the tick yields the
    finished state with time, position, velocity, start position and path as
    they were: only the two flags change, and the velocity is not zeroed. *)
Theorem animate1_out_of_bounds (env : EnvironmentConfig)
    (p : ProjectileEntity) :
  isPlaying (state p) = true ->
  isFinished (state p) = false ->
  let nextT := t (state p) + (1 / 60) * timeScale env in
  let init := getInitialState (config p) env in
  let physics :=
    calculatePhysics nextT env (startPosition (state p)) (vel init) in
  checkCollision (ph_position physics) (angleIncline env) = false ->
  y (ph_position physics) < -30 \/ x (ph_position physics) > 250 ->
  animate1 env p =
  {| eid := eid p; config := config p;
     state := {| t := t (state p);
                 isPlaying := false;
                 isFinished := true;
                 position := position (state p);
                 startPosition := startPosition (state p);
                 velocity := velocity (state p);
                 path := path (state p) |} |}.
Proof.
  intros Hp Hf nextT init physics Hhit Hout.
  unfold animate1. rewrite Hp, Hf; cbn [negb orb].
  unfold tick_physics, tick_nextT, tick_dt.
  fold nextT init physics. rewrite Hhit; cbn [andb].
  replace ((y (ph_position physics) <? -30)
           || (x (ph_position physics) >? 250)) with true; [reflexivity|].
  symmetry; apply orb_true_iff.
  destruct Hout as [H | H]; [left; now apply ltb_true
                            | right; now apply gtb_true].
Qed.

Lemma animate1_out_of_bounds_witness :
  let after := state (animate1 flatEnv fastProjectile) in
  isPlaying after = false /\ isFinished after = true
  /\ t after = 10
  /\ position after = {| x := 300; y := -490.5 |}
  /\ velocity after = {| x := 30; y := -98.1 |}
  /\ path after = [origin].
Proof.
  rewrite (animate1_out_of_bounds flatEnv fastProjectile).
  - cbn. repeat split.
  - reflexivity.
  - reflexivity.
  - unfold checkCollision; cbv zeta.
    replace (paraDist _ _ <=? INCLINE_LENGTH + 20) with false;
      [now rewrite !andb_false_r|].
    symmetry; apply leb_false.
    unfold paraDist, INCLINE_LENGTH; cbn.
    rewrite !toRad_0, Rplus_0_r, sin_0, cos_0. lra.
  - right. cbn. rewrite !toRad_0, Rplus_0_r, cos_0. lra.
Defined.

(** ** Relaunch *)

(** C8. Launching a finished projectile yields the state with [t = 0],
    [isPlaying = true], [isFinished = false], and position, start position,
    velocity and one-point path taken from [getInitialState] on the current
    config and environment; the result does not depend on the state before:
    two finished projectiles with the same config get the same state. *)
Theorem launchProjectile1_relaunch (env : EnvironmentConfig)
    (p q : ProjectileEntity) :
  isPlaying (state p) = false ->
  isFinished (state p) = true ->
  let init := getInitialState (config p) env in
  launchProjectile1 env (eid p) p =
  {| eid := eid p; config := config p;
     state := {| t := 0;
                 isPlaying := true;
                 isFinished := false;
                 position := pos init;
                 startPosition := pos init;
                 velocity := vel init;
                 path := [pos init] |} |}
  /\ (isPlaying (state q) = false -> isFinished (state q) = true ->
      config q = config p ->
      state (launchProjectile1 env (eid q) q)
      = state (launchProjectile1 env (eid p) p)).
Proof.
  intros Hp Hf init.
  assert (E : forall r, isPlaying (state r) = false ->
                        isFinished (state r) = true ->
                        launchProjectile1 env (eid r) r
                        = {| eid := eid r; config := config r;
                             state := freshState true
                                        (getInitialState (config r) env) |}).
  { intros r Hr1 Hr2. unfold launchProjectile1.
    rewrite String.eqb_refl, Hr1, Hr2. reflexivity. }
  split.
  - rewrite (E p Hp Hf). reflexivity.
  - intros Hq1 Hq2 Hc. rewrite (E p Hp Hf), (E q Hq1 Hq2), Hc. reflexivity.
Qed.

Lemma launchProjectile1_relaunch_witness :
  let after := state (launchProjectile1 initialEnv "p1" landedProjectile) in
  t after = 0 /\ isPlaying after = true /\ isFinished after = false
  /\ position after = origin
  /\ startPosition after = origin
  /\ path after = [origin]
  /\ velocity after
     = {| x := 25 * cos (toRad 30 + toRad 45);
          y := 25 * sin (toRad 30 + toRad 45) |}.
Proof.
  change "p1"%string with (eid landedProjectile).
  rewrite (proj1 (launchProjectile1_relaunch initialEnv landedProjectile
                    landedProjectile eq_refl eq_refl)).
  cbn. repeat split.
Defined.

(** ** The flag invariant *)

Lemma legalFlags_not_both s :
  legalFlags s <-> ~ (isPlaying s = true /\ isFinished s = true).
Proof.
  unfold legalFlags.
  destruct (isPlaying s), (isFinished s); intuition congruence.
Qed.

Lemma legalFlags_freshState b init : legalFlags (freshState b init).
Proof. unfold legalFlags; destruct b; cbn; auto. Qed.

Lemma legalFlags_createProjectile env id nm col u :
  legalFlags (state (createProjectile env id nm col u)).
Proof. apply legalFlags_freshState. Qed.

Lemma legalFlags_updateProjectileConfig1 env id u p :
  legalFlags (state p) ->
  legalFlags (state (updateProjectileConfig1 env id u p)).
Proof.
  intros H; unfold updateProjectileConfig1.
  destruct (negb (eid p =? id)%string); [exact H | apply legalFlags_freshState].
Qed.

Lemma legalFlags_envEffect1 env p :
  legalFlags (state p) -> legalFlags (state (envEffect1 env p)).
Proof.
  intros H; unfold envEffect1.
  destruct (isPlaying (state p)) eqn:E; [exact H|].
  unfold legalFlags in *; cbn. rewrite E in *. exact H.
Qed.

(** A launch or a pause leaves a legal state whatever the state before. *)
Lemma legalFlags_launchProjectile1 env id p :
  legalFlags (state p) ->
  legalFlags (state (launchProjectile1 env id p)).
Proof.
  intros H; unfold launchProjectile1.
  destruct (negb (eid p =? id)%string); [exact H|].
  destruct (isPlaying (state p)) eqn:Ep.
  - unfold legalFlags; cbn. destruct (isFinished (state p)); auto.
  - destruct (isFinished (state p)) eqn:Ef.
    + apply legalFlags_freshState.
    + unfold legalFlags; cbn. auto.
Qed.

Lemma legalFlags_launchAll1 env p : legalFlags (state (launchAll1 env p)).
Proof. apply legalFlags_freshState. Qed.

Lemma legalFlags_resetAll1 env p : legalFlags (state (resetAll1 env p)).
Proof. apply legalFlags_freshState. Qed.

Lemma legalFlags_animate1 env p :
  legalFlags (state p) -> legalFlags (state (animate1 env p)).
Proof.
  intros H; unfold animate1.
  destruct (isPlaying (state p)) eqn:Ep; cbn [negb orb]; [|exact H].
  destruct (isFinished (state p)) eqn:Ef; [exact H|].
  repeat match goal with
         | |- context [if ?c then _ else _] => destruct c
         end; unfold legalFlags; cbn; rewrite ?Ep, ?Ef; auto.
Qed.

Lemma allLegal_map env (f : ProjectileEntity -> ProjectileEntity) ps :
  (forall p, legalFlags (state p) -> legalFlags (state (f p))) ->
  Forall (fun p => legalFlags (state p)) ps ->
  allLegal (mkApp env (map f ps)).
Proof.
  intros Hf H; unfold allLegal; cbn.
  apply Forall_map. eapply Forall_impl; [|exact H]. exact Hf.
Qed.

Lemma allLegal_step a act : allLegal a -> allLegal (step a act).
Proof.
  intros H; destruct a as [env ps]; unfold allLegal in H; cbn in H.
  destruct act; cbn [step app_env projectiles].
  - unfold allLegal; cbn. apply Forall_app; split; [exact H|].
    constructor; [apply legalFlags_createProjectile | constructor].
  - destruct (List.length ps <=? 1)%nat; [exact H|].
    unfold allLegal; cbn. apply Forall_forall; intros p Hin.
    apply filter_In in Hin. rewrite Forall_forall in H. now apply H.
  - apply allLegal_map; [apply legalFlags_updateProjectileConfig1 | exact H].
  - destruct (_ || _); [|exact H].
    apply allLegal_map; [apply legalFlags_envEffect1 | exact H].
  - apply allLegal_map; [apply legalFlags_launchProjectile1 | exact H].
  - apply allLegal_map; [intros; apply legalFlags_launchAll1 | exact H].
  - apply allLegal_map; [intros; apply legalFlags_resetAll1 | exact H].
  - apply allLegal_map; [apply legalFlags_animate1 | exact H].
Qed.

Lemma allLegal_initialApp : allLegal initialApp.
Proof.
  unfold initialApp. apply allLegal_map; [apply legalFlags_envEffect1|].
  constructor; [apply legalFlags_createProjectile | constructor].
Qed.

Lemma allLegal_fold acts : forall a,
  allLegal a -> allLegal (fold_left step acts a).
Proof.
  induction acts as [|act acts IH]; intros a H; cbn; [exact H|].
  apply IH, allLegal_step, H.
Qed.

(** C6. After any sequence of operations on the application (adding or
    removing a projectile, a config edit, an environment change, launch or
    pause, launch-all, reset-all, a tick), every projectile's flags are one
    of (not playing, not finished), (playing, not finished), (not playing,
    finished); playing together with finished never holds. *)
Theorem flags_never_playing_and_finished (acts : list Action) :
  Forall (fun p =>
            legalFlags (state p)
            /\ ~ (isPlaying (state p) = true /\ isFinished (state p) = true))
         (projectiles (run acts)).
Proof.
  pose proof (allLegal_fold acts initialApp allLegal_initialApp) as H.
  unfold allLegal in H; fold (run acts) in H.
  eapply Forall_impl; [|exact H].
  intros p Hp; split; [exact Hp | now apply legalFlags_not_both].
Qed.

(** ** The trajectory predictor *)

Lemma loopTime_eq k : forall time,
  loopTime k time = time + INR k * predict_dt.
Proof.
  induction k as [|k IH]; intros time.
  - cbn. lra.
  - cbn [loopTime]. rewrite IH, S_INR. lra.
Qed.

Lemma predictLoop_step fuel env p0 v time points :
  predictLoop (S fuel) env p0 v time points =
  if time <=? predict_maxTime then
    let points' := points ++ [ph_position (calculatePhysics time env p0 v)] in
    if predictStop env p0 v time then Some points'
    else predictLoop fuel env p0 v (time + predict_dt) points'
  else Some points.
Proof.
  cbn [predictLoop]; unfold predictStop; cbv zeta.
  destruct (time <=? predict_maxTime); [|reflexivity].
  destruct (checkCollision _ _ && _); [reflexivity|].
  cbn [orb]. reflexivity.
Qed.

(** The loop leaves: once the fuel covers the horizon, the result is
    [Some], the array extended. *)
Lemma predictLoop_terminates env p0 v fuel : forall time points,
  predict_maxTime < time + INR fuel * predict_dt ->
  exists extra,
    predictLoop (S fuel) env p0 v time points = Some (points ++ extra).
Proof.
  induction fuel as [|fuel IH]; intros time points H;
    rewrite predictLoop_step.
  - cbn in H. replace (time <=? predict_maxTime) with false.
    + exists []. now rewrite app_nil_r.
    + symmetry; apply leb_false; lra.
  - destruct (time <=? predict_maxTime).
    + cbv zeta. destruct (predictStop env p0 v time).
      * eexists; reflexivity.
      * destruct (IH (time + predict_dt)
                     (points ++ [ph_position (calculatePhysics time env p0 v)]))
          as [extra E].
        { rewrite S_INR in H. lra. }
        rewrite E, <- app_assoc. eexists; reflexivity.
    + exists []. now rewrite app_nil_r.
Qed.

Lemma predictTrajectory_terminates cfg env :
  exists pts, predictTrajectory cfg env = Some pts.
Proof.
  unfold predictTrajectory, predictTrajectory_fuel, predict_fuel.
  destruct (predictLoop_terminates env (pos (getInitialState cfg env))
              (vel (getInitialState cfg env)) 127 0 []) as [extra E].
  - unfold predict_maxTime, predict_dt.
    replace (INR 127) with 127 by (rewrite INR_IZR_INZ; reflexivity).
    lra.
  - exists extra. exact E.
Qed.

(** The loop that runs [n] passes without a [break] and breaks on pass
    [n]. *)
Lemma predictLoop_run env p0 v n : forall fuel time points,
  (n < fuel)%nat ->
  (forall k, (k <= n)%nat -> loopTime k time <= predict_maxTime) ->
  (forall k, (k < n)%nat -> predictStop env p0 v (loopTime k time) = false) ->
  predictStop env p0 v (loopTime n time) = true ->
  predictLoop fuel env p0 v time points =
  Some (points ++
        map (fun k => ph_position
                        (calculatePhysics (loopTime k time) env p0 v))
            (seq 0 (S n))).
Proof.
  induction n as [|n IH]; intros fuel time points Hfuel Hin Hgo Hstop.
  - destruct fuel as [|fuel]; [lia|]. rewrite predictLoop_step.
    specialize (Hin 0%nat (Nat.le_refl _)); cbn in Hin, Hstop.
    apply leb_true in Hin. rewrite Hin; cbv zeta. rewrite Hstop.
    reflexivity.
  - destruct fuel as [|fuel]; [lia|]. rewrite predictLoop_step.
    pose proof (Hin 0%nat (Nat.le_0_l _)) as H0; cbn in H0.
    apply leb_true in H0. rewrite H0; cbv zeta.
    pose proof (Hgo 0%nat (Nat.lt_0_succ _)) as G0; cbn in G0. rewrite G0.
    rewrite (IH fuel (time + predict_dt)).
    + rewrite <- app_assoc. cbn [app]. f_equal. f_equal.
      change (seq 0 (S (S n))) with (0%nat :: seq 1 (S n)).
      cbn [map loopTime]. f_equal.
      rewrite <- seq_shift, map_map. reflexivity.
    + lia.
    + intros k Hk. apply (Hin (S k)). lia.
    + intros k Hk. apply (Hgo (S k)). lia.
    + exact Hstop.
Qed.

(** ** The scenario: 25 m/s at 45 degrees above a 30 degree incline *)

Lemma inv_sqrt2_sq : (1 / sqrt 2) * (1 / sqrt 2) = 1 / 2.
Proof.
  pose proof (sqrt_def 2 ltac:(lra)) as H.
  pose proof (sqrt_lt_R0 2 ltac:(lra)) as P.
  field_simplify; [rewrite <- Rsqr_pow2; unfold Rsqr; rewrite H; lra | lra].
Qed.

Lemma inv_sqrt2_bounds : 0.7071 < 1 / sqrt 2 < 0.70711.
Proof.
  pose proof inv_sqrt2_sq as H.
  assert (P : 0 < 1 / sqrt 2).
  { apply Rdiv_lt_0_compat; [lra | apply sqrt_lt_R0; lra]. }
  split; nra.
Qed.

Lemma cos_75 :
  cos (toRad 30 + toRad 45) = (sqrt 3 - 1) / 2 * (1 / sqrt 2).
Proof.
  rewrite toRad_30, toRad_45, cos_plus, cos_PI6, sin_PI6, cos_PI4, sin_PI4.
  lra.
Qed.

Lemma sin_75 :
  sin (toRad 30 + toRad 45) = (sqrt 3 + 1) / 2 * (1 / sqrt 2).
Proof.
  rewrite toRad_30, toRad_45, sin_plus, cos_PI6, sin_PI6, cos_PI4, sin_PI4.
  lra.
Qed.

Section Scenario.

Variables (id nm col : string) (sv sd ts : R) (sp : bool).

Local Abbreviation cfg := (scenarioConfig id nm col).
Local Abbreviation env := (scenarioEnv sv sd ts sp).
Local Abbreviation init := (getInitialState cfg env).
Local Abbreviation at_ := (positionAt cfg env).

Lemma scenario_x time :
  x (at_ time) = 25 * ((sqrt 3 - 1) / 2 * (1 / sqrt 2)) * time.
Proof.
  unfold positionAt; cbn. rewrite cos_75. lra.
Qed.

Lemma scenario_y time :
  y (at_ time)
  = 25 * ((sqrt 3 + 1) / 2 * (1 / sqrt 2)) * time - 4.905 * time * time.
Proof.
  unfold positionAt; cbn. rewrite sin_75. lra.
Qed.

Lemma scenario_perp time :
  perpDist (at_ time) (toRad 30)
  = time * (25 * (1 / sqrt 2) - 2.4525 * (sqrt 3 * time)).
Proof.
  unfold perpDist. rewrite scenario_x, scenario_y, toRad_30, sin_PI6, cos_PI6.
  pose proof sqrt3_sq as H.
  set (r := sqrt 3) in *; set (h := 1 / sqrt 2).
  transitivity (time * (25 * h * (r * r + 1) / 4 - 2.4525 * (r * time)));
    [dfield | rewrite H; dfield].
Qed.

Lemma scenario_para time :
  paraDist (at_ time) (toRad 30)
  = time * (25 * (1 / sqrt 2) - 2.4525 * time).
Proof.
  unfold paraDist. rewrite scenario_x, scenario_y, toRad_30, sin_PI6, cos_PI6.
  pose proof sqrt3_sq as H.
  set (r := sqrt 3) in *; set (h := 1 / sqrt 2).
  transitivity (time * (25 * h * (r * r + 1) / 4 - 2.4525 * time));
    [dfield | rewrite H; dfield].
Qed.

Lemma scenario_y_nonneg time : 0 <= time <= 4.2 -> 0 <= y (at_ time).
Proof.
  intros Ht. rewrite scenario_y.
  pose proof sqrt3_bounds as B3; pose proof inv_sqrt2_bounds as B2.
  set (r := sqrt 3) in *; set (h := 1 / sqrt 2) in *.
  assert (S75 : 0.96 <= (r + 1) / 2 * h) by nra.
  nra.
Qed.

Lemma scenario_above time :
  0.2 <= time <= 4.1 -> 0.05 < perpDist (at_ time) (toRad 30).
Proof.
  intros Ht. rewrite scenario_perp.
  pose proof sqrt3_bounds as B3; pose proof inv_sqrt2_bounds as B2.
  set (r := sqrt 3) in *; set (h := 1 / sqrt 2) in *.
  assert (P : r * time <= 1.7321 * 4.1) by nra.
  assert (Q : 0.26 <= 25 * h - 2.4525 * (r * time)) by lra.
  nra.
Qed.

Lemma scenario_lands :
  checkCollision (at_ 4.2) 30 = true.
Proof.
  apply checkCollision_true. rewrite scenario_perp, scenario_para.
  pose proof sqrt3_bounds as B3; pose proof inv_sqrt2_bounds as B2.
  unfold INCLINE_LENGTH.
  set (r := sqrt 3) in *; set (h := 1 / sqrt 2) in *.
  lra.
Qed.

Lemma scenario_time (k : nat) : loopTime k 0 = INR k * 0.1.
Proof. rewrite loopTime_eq; unfold predict_dt; lra. Qed.

Lemma scenario_goes_on (k : nat) :
  (k < 42)%nat -> predictStop env (pos init) (vel init) (loopTime k 0) = false.
Proof.
  intros Hk. rewrite scenario_time. unfold predictStop; cbv zeta.
  fold (positionAt cfg env (INR k * 0.1)). change (angleIncline env) with 30.
  assert (K0 : 0 <= INR k) by apply pos_INR.
  assert (K41 : INR k <= 41).
  { replace 41 with (INR 41) by (rewrite INR_IZR_INZ; reflexivity).
    apply le_INR; lia. }
  replace (y (at_ (INR k * 0.1)) <? -10) with false.
  2:{ symmetry; apply ltb_false.
      pose proof (scenario_y_nonneg (INR k * 0.1)); lra. }
  rewrite orb_false_r.
  destruct (le_lt_dec k 1) as [Hle | Hgt].
  - replace (INR k * 0.1 >? 0.1) with false; [apply andb_false_r|].
    symmetry; apply gtb_false.
    assert (INR k <= 1).
    { replace 1 with (INR 1) by reflexivity. apply le_INR; lia. }
    lra.
  - rewrite checkCollision_false_above; [reflexivity|].
    apply scenario_above.
    assert (2 <= INR k).
    { replace 2 with (INR 2) by (rewrite INR_IZR_INZ; reflexivity).
      apply le_INR; lia. }
    lra.
Qed.

Lemma scenario_time_42 : loopTime 42 0 = 4.2.
Proof.
  rewrite scenario_time.
  replace (INR 42) with 42 by (rewrite INR_IZR_INZ; reflexivity). lra.
Qed.

Lemma scenario_breaks :
  predictStop env (pos init) (vel init) (loopTime 42 0) = true.
Proof.
  rewrite scenario_time_42. unfold predictStop; cbv zeta.
  fold (positionAt cfg env 4.2). change (angleIncline env) with 30.
  rewrite scenario_lands.
  replace (4.2 >? 0.1) with true; [reflexivity|].
  symmetry; apply gtb_true; lra.
Qed.

Lemma scenario_points :
  predictTrajectory cfg env
  = Some (map (fun k => at_ (INR k * 0.1)) (seq 0 43)).
Proof.
  unfold predictTrajectory, predictTrajectory_fuel, predict_fuel.
  rewrite (predictLoop_run env (pos init) (vel init) 42).
  - cbn [app]. f_equal. apply map_ext; intros k.
    rewrite scenario_time. reflexivity.
  - lia.
  - intros k Hk. rewrite scenario_time. unfold predict_maxTime.
    assert (INR k <= 42).
    { replace 42 with (INR 42) by (rewrite INR_IZR_INZ; reflexivity).
      apply le_INR; lia. }
    lra.
  - apply scenario_goes_on.
  - apply scenario_breaks.
Qed.

End Scenario.

(** C7. For the config (v0 = 25, launch angle 45 degrees, Bottom) and the
    environment (incline 30 degrees, g = 9.81), [predictTrajectory] returns:
    its loop leaves, the array holds the 43 positions sampled every 0.1 s
    from time 0 to 4.2 s, inside the 10 s horizon, and its last element
    collides with the incline (so it collides or lies below y = -10). *)
Theorem predictTrajectory_scenario (id nm col : string) (sv sd ts : R)
    (sp : bool) :
  let cfg := scenarioConfig id nm col in
  let env := scenarioEnv sv sd ts sp in
  let init := getInitialState cfg env in
  let sample (k : nat) :=
    ph_position (calculatePhysics (INR k * 0.1) env (pos init) (vel init)) in
  exists pts,
    predictTrajectory cfg env = Some pts
    /\ pts = map sample (seq 0 43)
    /\ INR 42 * 0.1 <= 10
    /\ (checkCollision (last pts origin) (angleIncline env) = true
        \/ y (last pts origin) < -10).
Proof.
  intros cfg env init sample.
  exists (map sample (seq 0 43)).
  split; [apply scenario_points|].
  split; [reflexivity|].
  split.
  - replace (INR 42) with 42 by (rewrite INR_IZR_INZ; reflexivity). lra.
  - left.
    change (seq 0 43) with (seq 0 42 ++ [42%nat]).
    rewrite map_app; cbn [map]. rewrite last_last.
    unfold sample. fold (positionAt cfg env (INR 42 * 0.1)).
    replace (INR 42 * 0.1) with 4.2
      by (replace (INR 42) with 42 by (rewrite INR_IZR_INZ; reflexivity); lra).
    apply scenario_lands.
Qed.

(** ** The grace period *)

Lemma predictLoop_extends env p0 v fuel : forall time points r,
  predictLoop fuel env p0 v time points = Some r ->
  exists extra, r = points ++ extra.
Proof.
  induction fuel as [|fuel IH]; intros time points r H; [discriminate|].
  rewrite predictLoop_step in H.
  destruct (time <=? predict_maxTime).
  - cbv zeta in H. destruct (predictStop env p0 v time).
    + injection H as <-. eexists; reflexivity.
    + apply IH in H as [extra ->]. rewrite <- app_assoc.
      eexists; reflexivity.
  - injection H as <-. exists []. now rewrite app_nil_r.
Qed.

(** A pass entered with the loop variable inside the horizon pushes its
    sample. *)
Lemma predictLoop_pushes env p0 v fuel time points r :
  time <= predict_maxTime ->
  predictLoop fuel env p0 v time points = Some r ->
  exists extra,
    r = points ++ ph_position (calculatePhysics time env p0 v) :: extra.
Proof.
  intros Ht H. destruct fuel as [|fuel]; [discriminate|].
  rewrite predictLoop_step in H. apply leb_true in Ht. rewrite Ht in H.
  cbv zeta in H. destruct (predictStop env p0 v time).
  - injection H as <-. exists []. reflexivity.
  - apply predictLoop_extends in H as [extra ->].
    rewrite <- app_assoc. exists extra. reflexivity.
Qed.

Lemma predictStop_at_rest env v :
  predictStop env origin v 0 = false.
Proof.
  unfold predictStop; cbv zeta.
  replace (0 >? 0.1) with false by (symmetry; apply gtb_false; lra).
  rewrite andb_false_r; cbn [orb].
  apply ltb_false. cbn. lra.
Qed.

Lemma predictStop_grace env p0 v time :
  time <= 0.1 ->
  predictStop env p0 v time
  = (y (ph_position (calculatePhysics time env p0 v)) <? -10).
Proof.
  intros H. unfold predictStop; cbv zeta.
  apply gtb_false in H. rewrite H, andb_false_r. reflexivity.
Qed.

Lemma getInitialState_Bottom cfg env :
  startPos cfg = Bottom -> pos (getInitialState cfg env) = origin.
Proof. intros H; unfold getInitialState; rewrite H; reflexivity. Qed.

Lemma predictTrajectory_Bottom_two cfg env :
  startPos cfg = Bottom ->
  exists pts, predictTrajectory cfg env = Some pts
              /\ (2 <= List.length pts)%nat.
Proof.
  intros HB. destruct (predictTrajectory_terminates cfg env) as [pts E].
  exists pts; split; [exact E|].
  unfold predictTrajectory, predictTrajectory_fuel, predict_fuel in E.
  rewrite (getInitialState_Bottom _ _ HB) in E.
  change 128%nat with (S 127) in E. rewrite predictLoop_step in E.
  replace (0 <=? predict_maxTime) with true in E
    by (symmetry; apply leb_true; unfold predict_maxTime; lra).
  cbv zeta in E. rewrite predictStop_at_rest in E.
  apply predictLoop_pushes in E as [extra ->].
  - rewrite length_app; cbn. lia.
  - unfold predict_maxTime, predict_dt; lra.
Qed.

Lemma animate1_grace env p :
  isPlaying (state p) = true ->
  isFinished (state p) = false ->
  tick_nextT env p <= 0.1 ->
  -30 <= y (ph_position (tick_physics env p)) ->
  x (ph_position (tick_physics env p)) <= 250 ->
  isPlaying (state (animate1 env p)) = true
  /\ isFinished (state (animate1 env p)) = false
  /\ t (state (animate1 env p)) = tick_nextT env p
  /\ position (state (animate1 env p)) = ph_position (tick_physics env p).
Proof.
  intros Hp Hf Ht Hy Hx. unfold animate1. rewrite Hp, Hf; cbn [negb orb].
  apply gtb_false in Ht. rewrite Ht, andb_false_r.
  apply ltb_false in Hy. apply gtb_false in Hx. rewrite Hy, Hx; cbn [orb].
  cbn [state isPlaying isFinished t position]. repeat split; assumption.
Qed.

(** C10. For every incline angle the origin has perpendicular and parallel
    distance 0 and [checkCollision] is true there; so every projectile
    started [Bottom] starts on a colliding position.  Neither consumer
    honours that hit while the elapsed time is at most 0.1: a tick whose
    next time is at most 0.1 and whose position is inside the bounds leaves
    the projectile playing; the predictor's break tests at a loop time of at
    most 0.1 reduce to the test [y < -10], and the predictor started
    [Bottom] goes past its first sample and returns at least two points. *)
Theorem origin_collides_grace_period (a : R) (cfg : ProjectileConfig)
    (env : EnvironmentConfig) (p : ProjectileEntity) (p0 v : Vector2)
    (time : R) :
  (- x origin * sin (toRad a) + y origin * cos (toRad a) = 0
   /\ x origin * cos (toRad a) + y origin * sin (toRad a) = 0
   /\ checkCollision origin a = true)
  /\ (startPos cfg = Bottom ->
      pos (getInitialState cfg env) = origin
      /\ checkCollision (pos (getInitialState cfg env)) (angleIncline env)
         = true)
  /\ (isPlaying (state p) = true ->
      isFinished (state p) = false ->
      tick_nextT env p <= 0.1 ->
      -30 <= y (ph_position (tick_physics env p)) ->
      x (ph_position (tick_physics env p)) <= 250 ->
      isPlaying (state (animate1 env p)) = true
      /\ isFinished (state (animate1 env p)) = false)
  /\ (time <= 0.1 ->
      predictStop env p0 v time
      = (y (ph_position (calculatePhysics time env p0 v)) <? -10))
  /\ (startPos cfg = Bottom ->
      exists pts, predictTrajectory cfg env = Some pts
                  /\ (2 <= List.length pts)%nat).
Proof.
  split; [|split; [|split; [|split]]].
  - cbn [origin x y]. repeat split; try lra. apply checkCollision_origin.
  - intros HB. rewrite (getInitialState_Bottom _ _ HB).
    split; [reflexivity | apply checkCollision_origin].
  - intros Hp Hf Ht Hy Hx.
    destruct (animate1_grace env p Hp Hf Ht Hy Hx) as (A & B & _).
    now split.
  - apply predictStop_grace.
  - apply predictTrajectory_Bottom_two.
Qed.

Lemma origin_collides_grace_period_witness :
  let cfg := scenarioConfig "p1" "A" "#ef4444" in
  let p := launchAll1 initialEnv (createProjectile initialEnv "p1" "A"
                                    "#ef4444" noUpdates) in
  checkCollision (pos (getInitialState cfg initialEnv)) 30 = true
  /\ (isPlaying (state (animate1 initialEnv p)) = true
      /\ isFinished (state (animate1 initialEnv p)) = false)
  /\ predictStop initialEnv origin origin 0.05
     = (y (ph_position (calculatePhysics 0.05 initialEnv origin origin))
        <? -10)
  /\ (exists pts, predictTrajectory cfg initialEnv = Some pts
                  /\ (2 <= List.length pts)%nat).
Proof.
  intros cfg p.
  destruct (origin_collides_grace_period 30 cfg initialEnv p origin origin
              0.05) as (_ & HB & HT & HS & HP).
  split; [apply (HB eq_refl)|].
  split; [|split; [apply HS; lra | apply (HP eq_refl)]].
  apply HT.
  - reflexivity.
  - reflexivity.
  - unfold tick_nextT, tick_dt; cbn. lra.
  - unfold tick_physics, tick_nextT, tick_dt; cbn.
    pose proof (SIN_bound (toRad 30 + toRad 45)) as [L _]. lra.
  - unfold tick_physics, tick_nextT, tick_dt; cbn.
    pose proof (COS_bound (toRad 30 + toRad 45)) as [_ U]. lra.
Defined.

(** * Further properties of the physics functions *)

(** ** Degrees and radians *)

Lemma Q2R_unfold n d : Q2R (QArith_base.Qmake n d) = IZR n / IZR (Zpos d).
Proof. reflexivity. Qed.

(** X1. [toDeg] undoes [toRad] and [toRad] undoes [toDeg]. *)
Theorem toRad_toDeg_roundtrip (deg rad : R) :
  toDeg (toRad deg) = deg /\ toRad (toDeg rad) = rad.
Proof.
  pose proof PI_neq0. unfold toDeg, toRad. split; field; assumption.
Qed.

(** ** The integrator as a flow *)

(** X2. Restarting the integrator from the position and velocity it gave at
    [t1] and advancing [t2] gives what advancing [t1 + t2] from the start
    gives. *)
Theorem calculatePhysics_restart (t1 t2 : R) (env : EnvironmentConfig)
    (p0 vel0 : Vector2) :
  let mid := calculatePhysics t1 env p0 vel0 in
  calculatePhysics t2 env (ph_position mid) (ph_velocity mid)
  = calculatePhysics (t1 + t2) env p0 vel0.
Proof.
  unfold calculatePhysics; cbn. rewrite !Q2R_unfold.
  f_equal; f_equal; field.
Qed.

(** At time 0 the integrator returns the initial position and velocity. *)
Lemma calculatePhysics_0 env p0 vel0 :
  calculatePhysics 0 env p0 vel0
  = {| ph_position := p0; ph_velocity := vel0 |}.
Proof.
  unfold calculatePhysics; cbv zeta. destruct p0, vel0; cbn [x y].
  f_equal; f_equal; lra.
Qed.

(** X3. Along a trajectory the energy per unit mass,
    [(vx^2 + vy^2) / 2 + g * y], keeps its initial value. *)
Theorem calculatePhysics_energy (time : R) (env : EnvironmentConfig)
    (p0 vel0 : Vector2) :
  let r := calculatePhysics time env p0 vel0 in
  (x (ph_velocity r) ^ 2 + y (ph_velocity r) ^ 2) / 2
  + gravity env * y (ph_position r)
  = (x vel0 ^ 2 + y vel0 ^ 2) / 2 + gravity env * y p0.
Proof.
  unfold calculatePhysics; cbn. rewrite !Q2R_unfold. field.
Qed.

(** X4. The vertical velocity is zero at time [vy0 / g], and no position of the
    trajectory is higher than the one reached then. *)
Theorem calculatePhysics_apex (time : R) (env : EnvironmentConfig)
    (p0 vel0 : Vector2) :
  0 < gravity env ->
  let apex := calculatePhysics (y vel0 / gravity env) env p0 vel0 in
  y (ph_velocity apex) = 0
  /\ y (ph_position (calculatePhysics time env p0 vel0))
     <= y (ph_position apex).
Proof.
  intros Hg apex; subst apex. unfold calculatePhysics; cbn.
  rewrite !Q2R_unfold.
  set (g := gravity env) in *. set (v := y vel0).
  split; [field; lra|].
  assert (E : y p0 + v * (v / g) - 5 / 10 * g * (v / g) * (v / g)
              = y p0 + v * v / (2 * g)) by (field; lra).
  cbn [Z.pow_pos Pos.iter Z.mul Pos.mul] in *.
  replace (IZR 5 / IZR 10) with (5 / 10) by reflexivity.
  rewrite E.
  assert (D : v * v / (2 * g) - (v * time - 5 / 10 * g * time * time)
              = (v - g * time) * (v - g * time) / (2 * g)) by (field; lra).
  assert (0 <= (v - g * time) * (v - g * time) / (2 * g)).
  { unfold Rdiv. apply Rmult_le_pos.
    - apply Rle_0_sqr.
    - left; apply Rinv_0_lt_compat; lra. }
  lra.
Qed.

Lemma calculatePhysics_apex_witness :
  y (ph_position (calculatePhysics 3 flatEnv origin {| x := 4; y := 9.81 |}))
  <= y (ph_position
          (calculatePhysics (9.81 / 9.81) flatEnv origin
             {| x := 4; y := 9.81 |})).
Proof.
  apply (calculatePhysics_apex 3 flatEnv origin {| x := 4; y := 9.81 |}).
  cbn. lra.
Defined.

(** ** The incline frame *)

(** X5. The magnitudes [projectToIncline] returns are the distances
    [checkCollision] tests: a point collides exactly when its perpendicular
    magnitude is at most 0.05 and its parallel magnitude lies in
    [-5, 120]. *)
Theorem checkCollision_projectToIncline (p : Vector2) (a : R) :
  let r := projectToIncline p a in
  mag (perpendicular r) = perpDist p (toRad a)
  /\ mag (parallel r) = paraDist p (toRad a)
  /\ checkCollision p a
     = (mag (perpendicular r) <=? 0.05)
       && ((mag (parallel r) >=? -5) && (mag (parallel r) <=? 100 + 20)).
Proof.
  assert (E1 : mag (perpendicular (projectToIncline p a))
               = perpDist p (toRad a)).
  { unfold projectToIncline, perpDist; cbn. ring. }
  assert (E2 : mag (parallel (projectToIncline p a))
               = paraDist p (toRad a)) by reflexivity.
  cbv zeta. rewrite E1, E2. repeat split.
Qed.

(** X6. The decomposition keeps the length of the vector, and its two component
    vectors are orthogonal. *)
Theorem projectToIncline_pythagoras (vec : Vector2) (a : R) :
  let r := projectToIncline vec a in
  mag (parallel r) ^ 2 + mag (perpendicular r) ^ 2 = x vec ^ 2 + y vec ^ 2
  /\ comp_x (parallel r) * comp_x (perpendicular r)
     + comp_y (parallel r) * comp_y (perpendicular r) = 0.
Proof.
  unfold projectToIncline; cbn.
  pose proof (sin_cos_1 (toRad a)) as H.
  set (s := sin (toRad a)) in *; set (c := cos (toRad a)) in *.
  split.
  - transitivity ((x vec * x vec + y vec * y vec) * (s * s + c * c));
      [ring | rewrite H; ring].
  - ring.
Qed.

(** X7. Projecting twice changes nothing: the parallel component vector has no
    perpendicular part and the perpendicular one no parallel part. *)
Theorem projectToIncline_idempotent (vec : Vector2) (a : R) :
  let r := projectToIncline vec a in
  let para := {| x := comp_x (parallel r); y := comp_y (parallel r) |} in
  let perp :=
    {| x := comp_x (perpendicular r); y := comp_y (perpendicular r) |} in
  mag (parallel (projectToIncline para a)) = mag (parallel r)
  /\ mag (perpendicular (projectToIncline para a)) = 0
  /\ mag (parallel (projectToIncline perp a)) = 0
  /\ mag (perpendicular (projectToIncline perp a)) = mag (perpendicular r).
Proof.
  unfold projectToIncline; cbn.
  pose proof (sin_cos_1 (toRad a)) as H.
  set (s := sin (toRad a)) in *; set (c := cos (toRad a)) in *.
  set (vx := x vec); set (vy := y vec).
  repeat split.
  - transitivity ((vx * c + vy * s) * (s * s + c * c));
      [ring | rewrite H; ring].
  - ring.
  - ring.
  - transitivity ((vx * - s + vy * c) * (s * s + c * c));
      [ring | rewrite H; ring].
Qed.

(** ** The resolved initial state *)

Lemma getInitialState_speed_sq cfg env :
  let v := vel (getInitialState cfg env) in
  x v ^ 2 + y v ^ 2 = v0 cfg ^ 2.
Proof.
  unfold getInitialState. destruct (startPos cfg); cbn.
  all: pose proof (sin_cos_1 (toRad (angleIncline env)
                              + toRad (angleLaunch cfg))) as H.
  all: set (s := sin _) in *; set (c := cos _) in *.
  all: transitivity (v0 cfg * v0 cfg * (s * s + c * c));
    [ring | rewrite H; ring].
Qed.

(** X8. The launch velocity has length [v0] (squared: [v0^2]); seen from the
    incline its parallel part is [v0 cos beta] and its perpendicular part
    [v0 sin beta], [beta] the launch angle in radians. *)
Theorem getInitialState_velocity (cfg : ProjectileConfig)
    (env : EnvironmentConfig) :
  let v := vel (getInitialState cfg env) in
  let beta := toRad (angleLaunch cfg) in
  let r := projectToIncline v (angleIncline env) in
  x v ^ 2 + y v ^ 2 = v0 cfg ^ 2
  /\ mag (parallel r) = v0 cfg * cos beta
  /\ mag (perpendicular r) = v0 cfg * sin beta.
Proof.
  split; [apply getInitialState_speed_sq|].
  unfold getInitialState, projectToIncline.
  destruct (startPos cfg); cbn.
  all: set (th := toRad (angleIncline env)).
  all: set (b := toRad (angleLaunch cfg)).
  all: rewrite cos_plus, sin_plus.
  all: pose proof (sin_cos_1 th) as Ht.
  all: set (s := sin th) in *; set (c := cos th) in *.
  all: set (sb := sin b); set (cb := cos b); set (v := v0 cfg).
  all: split.
  all: try (transitivity (v * cb * (s * s + c * c));
            [ring | rewrite Ht; ring]).
  all: transitivity (v * sb * (s * s + c * c)); [ring | rewrite Ht; ring].
Qed.

(** X9. Whatever the config, the resolved start position lies on the incline
    line (perpendicular distance 0), at distance 0 or 100 along it, and
    [checkCollision] is true there: a [Top] start collides at time 0 as a
    [Bottom] start does. *)
Theorem getInitialState_on_incline (cfg : ProjectileConfig)
    (env : EnvironmentConfig) :
  let p := pos (getInitialState cfg env) in
  let theta := toRad (angleIncline env) in
  perpDist p theta = 0
  /\ paraDist p theta
     = match startPos cfg with Bottom => 0 | Top => INCLINE_LENGTH end
  /\ checkCollision p (angleIncline env) = true.
Proof.
  cbv zeta.
  assert (P : perpDist (pos (getInitialState cfg env))
                (toRad (angleIncline env)) = 0).
  { unfold getInitialState, perpDist.
    destruct (startPos cfg); cbn; ring. }
  assert (Q : paraDist (pos (getInitialState cfg env))
                (toRad (angleIncline env))
              = match startPos cfg with
                | Bottom => 0 | Top => INCLINE_LENGTH end).
  { unfold getInitialState, paraDist.
    pose proof (sin_cos_1 (toRad (angleIncline env))) as H.
    destruct (startPos cfg); cbn; [ring|].
    set (s := sin _) in *; set (c := cos _) in *.
    transitivity (INCLINE_LENGTH * (s * s + c * c));
      [ring | rewrite H; ring]. }
  split; [exact P|]. split; [exact Q|].
  apply checkCollision_true. rewrite P, Q. unfold INCLINE_LENGTH.
  destruct (startPos cfg); lra.
Qed.

(** ** The predictor on every input *)

Lemma first_true (f : nat -> bool) (N : nat) :
  (exists n, (n <= N)%nat /\ f n = true
             /\ forall k, (k < n)%nat -> f k = false)
  \/ (forall k, (k <= N)%nat -> f k = false).
Proof.
  induction N as [|N [(n & Hn & Ht & Hb) | Hall]].
  - destruct (f 0%nat) eqn:E.
    + left. exists 0%nat. repeat split; [lia | exact E | intros; lia].
    + right. intros k Hk. replace k with 0%nat by lia. exact E.
  - left. exists n. repeat split; [lia | exact Ht | exact Hb].
  - destruct (f (S N)) eqn:E.
    + left. exists (S N). repeat split; [lia | exact E|].
      intros k Hk. apply Hall. lia.
    + right. intros k Hk.
      destruct (Nat.eq_dec k (S N)) as [-> | Hne]; [exact E|].
      apply Hall. lia.
Qed.

(** The loop that never breaks and leaves when the loop variable passes the
    horizon after pass [n]. *)
Lemma predictLoop_exhaust env p0 v n : forall fuel time points,
  (S n < fuel)%nat ->
  (forall k, (k <= n)%nat -> loopTime k time <= predict_maxTime) ->
  predict_maxTime < loopTime (S n) time ->
  (forall k, (k <= n)%nat -> predictStop env p0 v (loopTime k time) = false) ->
  predictLoop fuel env p0 v time points =
  Some (points ++
        map (fun k => ph_position
                        (calculatePhysics (loopTime k time) env p0 v))
            (seq 0 (S n))).
Proof.
  induction n as [|n IH]; intros fuel time points Hfuel Hin Hout Hgo.
  - destruct fuel as [|[|fuel]]; try lia. rewrite predictLoop_step.
    pose proof (Hin 0%nat (Nat.le_refl _)) as H0; cbn in H0.
    apply leb_true in H0. rewrite H0; cbv zeta.
    pose proof (Hgo 0%nat (Nat.le_refl _)) as G0; cbn in G0. rewrite G0.
    rewrite predictLoop_step. cbn in Hout.
    apply leb_false in Hout. rewrite Hout. reflexivity.
  - destruct fuel as [|fuel]; [lia|]. rewrite predictLoop_step.
    pose proof (Hin 0%nat (Nat.le_0_l _)) as H0; cbn in H0.
    apply leb_true in H0. rewrite H0; cbv zeta.
    pose proof (Hgo 0%nat (Nat.le_0_l _)) as G0; cbn in G0. rewrite G0.
    rewrite (IH fuel (time + predict_dt)).
    + rewrite <- app_assoc. cbn [app]. f_equal. f_equal.
      change (seq 0 (S (S n))) with (0%nat :: seq 1 (S n)).
      cbn [map loopTime]. f_equal.
      rewrite <- seq_shift, map_map. reflexivity.
    + lia.
    + intros k Hk. apply (Hin (S k)). lia.
    + exact Hout.
    + intros k Hk. apply (Hgo (S k)). lia.
Qed.

Lemma INR_le_100 k : (k <= 100)%nat -> INR k <= 100.
Proof.
  intros H. replace 100 with (INR 100) by (rewrite INR_IZR_INZ; reflexivity).
  now apply le_INR.
Qed.

Lemma predictTrajectory_run cfg env :
  let init := getInitialState cfg env in
  exists n,
    (n <= 100)%nat
    /\ predictTrajectory cfg env
       = Some (map (fun k => positionAt cfg env (INR k * 0.1)) (seq 0 (S n)))
    /\ (forall k, (k < n)%nat ->
          predictStop env (pos init) (vel init) (INR k * 0.1) = false)
    /\ (predictStop env (pos init) (vel init) (INR n * 0.1) = true
        \/ n = 100%nat).
Proof.
  intros init.
  set (stop := fun k => predictStop env (pos init) (vel init) (INR k * 0.1)).
  assert (T : forall k, (k <= 100)%nat -> loopTime k 0 <= predict_maxTime).
  { intros k Hk. rewrite scenario_time. unfold predict_maxTime.
    pose proof (INR_le_100 k Hk). lra. }
  destruct (first_true stop 100) as [(n & Hn & Ht & Hb) | Hall].
  - exists n. split; [exact Hn|]. split; [|split; [exact Hb | left; exact Ht]].
    unfold predictTrajectory, predictTrajectory_fuel, predict_fuel.
    rewrite (predictLoop_run env (pos init) (vel init) n).
    + cbn [app]. f_equal. apply map_ext; intros k.
      rewrite scenario_time. reflexivity.
    + lia.
    + intros k Hk. apply T. lia.
    + intros k Hk. rewrite scenario_time. now apply Hb.
    + rewrite scenario_time. exact Ht.
  - exists 100%nat. split; [lia|].
    split; [|split; [intros k Hk; apply Hall; lia | right; reflexivity]].
    unfold predictTrajectory, predictTrajectory_fuel, predict_fuel.
    rewrite (predictLoop_exhaust env (pos init) (vel init) 100).
    + cbn [app]. f_equal. apply map_ext; intros k.
      rewrite scenario_time. reflexivity.
    + lia.
    + exact T.
    + rewrite scenario_time. unfold predict_maxTime.
      replace (INR 101) with 101 by (rewrite INR_IZR_INZ; reflexivity). lra.
    + intros k Hk. rewrite scenario_time. now apply Hall.
Qed.

(** X10. For every config and environment the predictor's loop leaves, and the
    array it returns holds between 1 and 101 points: the positions at times
    0, 0.1, 0.2, ... in order, the first one being the resolved start
    position. *)
Theorem predictTrajectory_samples (cfg : ProjectileConfig)
    (env : EnvironmentConfig) :
  exists pts,
    predictTrajectory cfg env = Some pts
    /\ (1 <= List.length pts <= 101)%nat
    /\ pts = map (fun k => positionAt cfg env (INR k * 0.1))
                 (seq 0 (List.length pts))
    /\ hd_error pts = Some (pos (getInitialState cfg env)).
Proof.
  destruct (predictTrajectory_run cfg env) as (n & Hn & E & _).
  exists (map (fun k => positionAt cfg env (INR k * 0.1)) (seq 0 (S n))).
  split; [exact E|].
  assert (L : List.length
                (map (fun k => positionAt cfg env (INR k * 0.1))
                   (seq 0 (S n))) = S n)
    by (rewrite length_map; apply length_seq).
  rewrite L.
  split; [lia|]. split; [reflexivity|].
  cbn [seq map hd_error]. f_equal.
  unfold positionAt; cbv zeta. cbn [INR]. rewrite Rmult_0_l.
  now rewrite calculatePhysics_0.
Qed.

(** X11. The predictor stops at the first sample that passes one of its stop
    tests (a collision later than 0.1 s, or y below -10): no sample before
    the last passes one, and the last one does unless the array is full
    (101 points, the horizon). *)
Theorem predictTrajectory_first_stop (cfg : ProjectileConfig)
    (env : EnvironmentConfig) (pts : list Vector2) :
  predictTrajectory cfg env = Some pts ->
  let init := getInitialState cfg env in
  let stop := fun k => predictStop env (pos init) (vel init) (INR k * 0.1) in
  (forall k, (S k < List.length pts)%nat -> stop k = false)
  /\ (stop (List.length pts - 1)%nat = true \/ List.length pts = 101%nat).
Proof.
  intros E init stop.
  destruct (predictTrajectory_run cfg env) as (n & Hn & E' & Hb & Hl).
  assert (L : List.length pts = S n).
  { assert (Hp : Some pts
                 = Some (map (fun k => positionAt cfg env (INR k * 0.1))
                           (seq 0 (S n)))) by congruence.
    apply (f_equal (fun o => match o with
                             | Some l => List.length l
                             | None => 0%nat
                             end)) in Hp.
    rewrite Hp, length_map. apply length_seq. }
  rewrite L.
  split.
  - intros k Hk. apply Hb. lia.
  - replace (S n - 1)%nat with n by lia.
    destruct Hl as [Hl | ->]; [left; exact Hl | right; reflexivity].
Qed.

Lemma predictTrajectory_first_stop_witness :
  let cfg := scenarioConfig "p1" "A" "#ef4444" in
  let init := getInitialState cfg initialEnv in
  predictStop initialEnv (pos init) (vel init) (INR 5 * 0.1) = false.
Proof.
  intros cfg init.
  apply (predictTrajectory_first_stop cfg initialEnv _
           (scenario_points "p1" "A" "#ef4444" 0.5 1.0 1.0 true)).
  rewrite length_map, length_seq. lia.
Defined.

(** * Further properties of the application callbacks *)

(** ** What a tick keeps *)

Lemma animate1_unchanged env p :
  eid (animate1 env p) = eid p
  /\ config (animate1 env p) = config p
  /\ startPosition (state (animate1 env p)) = startPosition (state p).
Proof.
  unfold animate1.
  repeat match goal with
         | |- context [if ?c then _ else _] => destruct c
         end; cbn; repeat split.
Qed.

Lemma animate1_path_grows env p :
  path (state (animate1 env p)) = path (state p)
  \/ path (state (animate1 env p))
     = path (state p) ++ [position (state (animate1 env p))].
Proof.
  unfold animate1.
  repeat match goal with
         | |- context [if ?c then _ else _] => destruct c
         end; cbn; auto.
Qed.

(** X12. A tick never changes a projectile's id, config or stored start
    position. *)
Theorem animate1_keeps (env : EnvironmentConfig) (p : ProjectileEntity) :
  eid (animate1 env p) = eid p
  /\ config (animate1 env p) = config p
  /\ startPosition (state (animate1 env p)) = startPosition (state p).
Proof.
  unfold animate1.
  destruct (negb (isPlaying (state p)) || isFinished (state p));
    [repeat split|].
  destruct (_ && _); [repeat split|].
  destruct (_ || _); [repeat split|].
  repeat split.
Qed.

(** X13. The path is append-only: a tick leaves it as it was or appends the new
    position, once. *)
Theorem animate1_path_append (env : EnvironmentConfig)
    (p : ProjectileEntity) :
  path (state (animate1 env p)) = path (state p)
  \/ path (state (animate1 env p))
     = path (state p) ++ [position (state (animate1 env p))].
Proof.
  unfold animate1.
  destruct (negb (isPlaying (state p)) || isFinished (state p));
    [now left|].
  destruct (_ && _); [now left|].
  destruct (_ || _); [now left|].
  cbn [state path position].
  destruct (Z.rem _ 5 =? 0)%Z; [now right | now left].
Qed.

(** X14. With a non-negative time multiplier a tick never moves a projectile's
    time backwards. *)
Theorem animate1_time_monotone (env : EnvironmentConfig)
    (p : ProjectileEntity) :
  0 <= timeScale env ->
  t (state p) <= t (state (animate1 env p)).
Proof.
  intros H. unfold animate1, tick_nextT, tick_dt.
  repeat match goal with
         | |- context [if ?c then _ else _] => destruct c
         end; cbn; lra.
Qed.

Lemma animate1_time_monotone_witness :
  t (state droppedProjectile) <= t (state (animate1 flatEnv droppedProjectile)).
Proof.
  apply (animate1_time_monotone flatEnv droppedProjectile). cbn. lra.
Defined.

(** A projectile that is flying after a tick was flying before it, and the
    tick took the last branch. *)
Lemma animate1_still_flying env p :
  isPlaying (state (animate1 env p)) = true ->
  isFinished (state (animate1 env p)) = false ->
  isPlaying (state p) = true
  /\ isFinished (state p) = false
  /\ t (state (animate1 env p)) = tick_nextT env p
  /\ position (state (animate1 env p)) = ph_position (tick_physics env p)
  /\ velocity (state (animate1 env p)) = ph_velocity (tick_physics env p).
Proof.
  unfold animate1.
  destruct (isPlaying (state p)) eqn:Ep; cbn [negb orb].
  2:{ intros H; congruence. }
  destruct (isFinished (state p)) eqn:Ef.
  1:{ intros _ H; congruence. }
  repeat match goal with
         | |- context [if ?c then _ else _] => destruct c
         end; cbn; intros; try discriminate; repeat split.
Qed.

Lemma ticks_S env n p : ticks env (S n) p = animate1 env (ticks env n p).
Proof. reflexivity. Qed.

Lemma ticks_keeps env n p :
  eid (ticks env n p) = eid p
  /\ config (ticks env n p) = config p
  /\ startPosition (state (ticks env n p)) = startPosition (state p).
Proof.
  induction n as [|n (A & B & C)]; [repeat split|].
  rewrite ticks_S.
  destruct (animate1_unchanged env (ticks env n p)) as (A' & B' & C').
  repeat split; congruence.
Qed.

Lemma ticks_flying_prefix env n p :
  isPlaying (state (ticks env (S n) p)) = true ->
  isFinished (state (ticks env (S n) p)) = false ->
  isPlaying (state (ticks env n p)) = true
  /\ isFinished (state (ticks env n p)) = false.
Proof.
  rewrite ticks_S. intros A B.
  destruct (animate1_still_flying env _ A B) as (C & D & _). now split.
Qed.

Lemma ticks_time env n p :
  isPlaying (state (ticks env n p)) = true ->
  isFinished (state (ticks env n p)) = false ->
  t (state (ticks env n p)) = t (state p) + INR n * tick_dt env.
Proof.
  induction n as [|n IH]; intros A B.
  - cbn. lra.
  - destruct (ticks_flying_prefix env n p A B) as (A' & B').
    rewrite ticks_S in A, B |- *.
    destruct (animate1_still_flying env _ A B) as (_ & _ & T & _).
    rewrite T. unfold tick_nextT. rewrite (IH A' B'), S_INR. lra.
Qed.

Lemma ticks_launch_state env n p :
  let q := ticks env n (launchAll1 env p) in
  let init := getInitialState (config p) env in
  isPlaying (state q) = true ->
  isFinished (state q) = false ->
  position (state q)
  = ph_position (calculatePhysics (t (state q)) env (pos init) (vel init))
  /\ velocity (state q)
     = ph_velocity (calculatePhysics (t (state q)) env (pos init) (vel init)).
Proof.
  intros q init A B. subst q. destruct n as [|n].
  - cbn [ticks Nat.iter launchAll1 state freshState t position velocity].
    rewrite calculatePhysics_0. now split.
  - rewrite ticks_S in A, B |- *.
    destruct (animate1_still_flying env _ A B) as (_ & _ & T' & P & V).
    rewrite P, V, T'. unfold tick_physics.
    destruct (ticks_keeps env n (launchAll1 env p)) as (_ & C & S0).
    rewrite C, S0. now split.
Qed.

(** X15. No error accumulates over ticks: a projectile launched by
    launch-all and still flying after [n] ticks under an unchanged
    environment has time
    [n * (1/60) * timeScale], and its position and velocity are the closed
    form evaluated at that time from the resolved initial state. *)
Theorem ticks_closed_form (env : EnvironmentConfig) (n : nat)
    (p : ProjectileEntity) :
  let q := ticks env n (launchAll1 env p) in
  let init := getInitialState (config p) env in
  let time := INR n * ((1 / 60) * timeScale env) in
  isPlaying (state q) = true ->
  isFinished (state q) = false ->
  t (state q) = time
  /\ position (state q)
     = ph_position (calculatePhysics time env (pos init) (vel init))
  /\ velocity (state q)
     = ph_velocity (calculatePhysics time env (pos init) (vel init)).
Proof.
  intros q init time A B.
  assert (T : t (state q) = time).
  { unfold q. rewrite (ticks_time env n _ A B). cbn.
    unfold time, tick_dt. lra. }
  destruct (ticks_launch_state env n p A B) as (P & V).
  fold q init in P, V. rewrite T in P, V.
  split; [exact T|]. split; [exact P | exact V].
Qed.

Lemma ticks_closed_form_witness :
  let p := createProjectile initialEnv "p1" "A" "#ef4444" noUpdates in
  t (state (ticks initialEnv 1 (launchAll1 initialEnv p)))
  = INR 1 * ((1 / 60) * timeScale initialEnv).
Proof.
  intros p.
  apply (ticks_closed_form initialEnv 1 p).
  - apply animate1_grace; try reflexivity.
    + unfold tick_nextT, tick_dt; cbn. lra.
    + unfold tick_physics, tick_nextT, tick_dt; cbn.
      pose proof (SIN_bound (toRad 30 + toRad 45)) as [L _]. lra.
    + unfold tick_physics, tick_nextT, tick_dt; cbn.
      pose proof (COS_bound (toRad 30 + toRad 45)) as [_ U]. lra.
  - apply animate1_grace; try reflexivity.
    + unfold tick_nextT, tick_dt; cbn. lra.
    + unfold tick_physics, tick_nextT, tick_dt; cbn.
      pose proof (SIN_bound (toRad 30 + toRad 45)) as [L _]. lra.
    + unfold tick_physics, tick_nextT, tick_dt; cbn.
      pose proof (COS_bound (toRad 30 + toRad 45)) as [_ U]. lra.
Defined.

(** ** Launch, pause and reset *)

(** X17. Pause and resume undo each other: on a projectile that is not finished,
    pressing launch twice gives the projectile back unchanged. *)
Theorem launchProjectile1_twice (env : EnvironmentConfig) (id : string)
    (p : ProjectileEntity) :
  isFinished (state p) = false ->
  launchProjectile1 env id (launchProjectile1 env id p) = p.
Proof.
  intros Hf. destruct p as [i c [tm pl fi ps sp ve pa]]; cbn in Hf; subst fi.
  unfold launchProjectile1; cbn.
  destruct (negb (i =? id)%string) eqn:E; cbn; rewrite ?E; [reflexivity|].
  destruct pl; cbn; rewrite ?E; reflexivity.
Qed.

Lemma launchProjectile1_twice_witness :
  launchProjectile1 flatEnv "p1"
    (launchProjectile1 flatEnv "p1" droppedProjectile)
  = droppedProjectile.
Proof.
  apply (launchProjectile1_twice flatEnv "p1" droppedProjectile).
  reflexivity.
Defined.

(** X18. Reset-all forgets the flight: applied after a tick, a launch or
    pause, a launch-all or another reset-all it gives what it gives applied
    directly;
    and launch-all likewise. *)
Theorem resetAll_absorbs (a : App) (id : string) :
  (step (step a Animate) ResetAll = step a ResetAll
   /\ step (step a (LaunchProjectile id)) ResetAll = step a ResetAll
   /\ step (step a LaunchAll) ResetAll = step a ResetAll
   /\ step (step a ResetAll) ResetAll = step a ResetAll)
  /\ (step (step a Animate) LaunchAll = step a LaunchAll
      /\ step (step a (LaunchProjectile id)) LaunchAll = step a LaunchAll
      /\ step (step a ResetAll) LaunchAll = step a LaunchAll
      /\ step (step a LaunchAll) LaunchAll = step a LaunchAll).
Proof.
  assert (K : forall (f g : ProjectileEntity -> ProjectileEntity) ps,
             (forall p, g (f p) = g p) -> map g (map f ps) = map g ps).
  { intros f g ps H. rewrite map_map. apply map_ext, H. }
  assert (A : forall env p, eid (animate1 env p) = eid p
                            /\ config (animate1 env p) = config p).
  { intros env p. destruct (animate1_unchanged env p) as (X & Y & _).
    now split. }
  assert (L : forall env p, eid (launchProjectile1 env id p) = eid p
                            /\ config (launchProjectile1 env id p)
                               = config p).
  { intros env p. unfold launchProjectile1.
    repeat match goal with
           | |- context [if ?c then _ else _] => destruct c
           end; cbn; now split. }
  destruct a as [env ps]; cbn [step app_env projectiles].
  repeat split; f_equal; apply K; intros p;
    unfold resetAll1, launchAll1; cbn;
    try (destruct (A env p) as (-> & ->); reflexivity);
    try (destruct (L env p) as (-> & ->); reflexivity);
    reflexivity.
Qed.

(** ** Ids and configs *)

Lemma map_through (B : Type) (h : ProjectileEntity -> B)
    (f : ProjectileEntity -> ProjectileEntity) ps :
  (forall p, h (f p) = h p) -> map h (map f ps) = map h ps.
Proof. intros H. rewrite map_map. apply map_ext, H. Qed.

Lemma step_ids_configs_kept a id :
  idsAndConfigs (step a Animate) = idsAndConfigs a
  /\ idsAndConfigs (step a (LaunchProjectile id)) = idsAndConfigs a
  /\ idsAndConfigs (step a LaunchAll) = idsAndConfigs a
  /\ idsAndConfigs (step a ResetAll) = idsAndConfigs a.
Proof.
  destruct a as [env ps]; unfold idsAndConfigs;
    cbn [step app_env projectiles].
  repeat split; apply map_through; intros p.
  - destruct (animate1_unchanged env p) as (-> & -> & _). reflexivity.
  - unfold launchProjectile1.
    repeat match goal with
           | |- context [if ?c then _ else _] => destruct c
           end; reflexivity.
  - reflexivity.
  - reflexivity.
Qed.

Lemma step_setEnv_ids_configs a env' :
  idsAndConfigs (step a (SetEnv env')) = idsAndConfigs a.
Proof.
  destruct a as [env ps]; unfold idsAndConfigs;
    cbn [step app_env projectiles].
  destruct (_ || _); cbn [projectiles]; [|reflexivity].
  apply map_through; intros p. unfold envEffect1.
  destruct (isPlaying (state p)); reflexivity.
Qed.

(** X19. A tick, a launch or pause, launch-all, reset-all and an environment
    change keep the list's ids and configs, in order; a config edit keeps
    the ids. *)
Theorem step_keeps_ids (a : App) (id : string) (env' : EnvironmentConfig)
    (updates : PartialConfig) :
  idsAndConfigs (step a Animate) = idsAndConfigs a
  /\ idsAndConfigs (step a (LaunchProjectile id)) = idsAndConfigs a
  /\ idsAndConfigs (step a LaunchAll) = idsAndConfigs a
  /\ idsAndConfigs (step a ResetAll) = idsAndConfigs a
  /\ idsAndConfigs (step a (SetEnv env')) = idsAndConfigs a
  /\ map eid (projectiles (step a (UpdateProjectileConfig id updates)))
     = map eid (projectiles a).
Proof.
  destruct (step_ids_configs_kept a id) as (A & B & C & D).
  repeat split; try assumption.
  - apply step_setEnv_ids_configs.
  - destruct a as [env ps]; cbn. apply map_through; intros p.
    unfold updateProjectileConfig1. destruct (negb _); reflexivity.
Qed.

(** ** The environment effect *)

(** X20. An environment change that keeps incline angle and gravity (time scale,
    vector scales, prediction toggle) leaves every projectile as it is; one
    that changes either leaves the playing projectiles as they are and puts
    every other one at the start resolved for the new environment, with a
    one-point path, keeping its time and flags. *)
Theorem setEnv_effect (a : App) (env' : EnvironmentConfig) :
  app_env (step a (SetEnv env')) = env'
  /\ (angleIncline env' = angleIncline (app_env a) ->
      gravity env' = gravity (app_env a) ->
      projectiles (step a (SetEnv env')) = projectiles a)
  /\ (angleIncline env' <> angleIncline (app_env a)
      \/ gravity env' <> gravity (app_env a) ->
      Forall2 (fun p q =>
                 if isPlaying (state p) then q = p
                 else
                   let init := getInitialState (config p) env' in
                   eid q = eid p /\ config q = config p
                   /\ position (state q) = pos init
                   /\ startPosition (state q) = pos init
                   /\ velocity (state q) = vel init
                   /\ path (state q) = [pos init]
                   /\ t (state q) = t (state p)
                   /\ isPlaying (state q) = false
                   /\ isFinished (state q) = isFinished (state p))
        (projectiles a) (projectiles (step a (SetEnv env')))).
Proof.
  destruct a as [env ps]; cbn [step app_env projectiles].
  split; [destruct (_ || _); reflexivity|]. split.
  - intros -> ->. unfold Num.neqb.
    destruct (Req_dec_T (angleIncline env) (angleIncline env));
      [|congruence].
    destruct (Req_dec_T (gravity env) (gravity env)); [|congruence].
    reflexivity.
  - intros H.
    replace (Num.neqb (angleIncline env') (angleIncline env)
             || Num.neqb (gravity env') (gravity env)) with true.
    2:{ symmetry; apply orb_true_iff. unfold Num.neqb.
        destruct H as [H | H]; [left | right];
          destruct (Req_dec_T _ _); congruence. }
    cbn [projectiles]. induction ps as [|p ps IH]; constructor; [|exact IH].
    unfold envEffect1. destruct (isPlaying (state p)) eqn:E;
      [reflexivity|]. cbn. repeat split.
Qed.

Lemma setEnv_effect_witness :
  projectiles (step initialApp (SetEnv (mkEnv 30 9.81 2 2 5 false)))
  = projectiles initialApp
  /\ List.length
       (projectiles (step initialApp (SetEnv (mkEnv 45 9.81 2 2 5 false))))
     = List.length (projectiles initialApp).
Proof.
  split.
  - apply (setEnv_effect initialApp (mkEnv 30 9.81 2 2 5 false));
      reflexivity.
  - symmetry. eapply Forall2_length.
    apply (setEnv_effect initialApp (mkEnv 45 9.81 2 2 5 false)).
    left. cbn. lra.
Defined.

(** ** The path invariant *)

Lemma pathAnchored_freshState b init : pathAnchored (freshState b init).
Proof. exists []. reflexivity. Qed.

Lemma pathAnchored_animate1 env p :
  pathAnchored (state p) -> pathAnchored (state (animate1 env p)).
Proof.
  intros [rest H]. unfold pathAnchored.
  destruct (animate1_unchanged env p) as (_ & _ & ->).
  destruct (animate1_path_grows env p) as [-> | ->]; rewrite H.
  - now exists rest.
  - eexists. cbn. reflexivity.
Qed.

Lemma pathAnchored_step a act :
  Forall (fun p => pathAnchored (state p)) (projectiles a) ->
  Forall (fun p => pathAnchored (state p)) (projectiles (step a act)).
Proof.
  intros H; destruct a as [env ps]; cbn in H.
  assert (K : forall f : ProjectileEntity -> ProjectileEntity,
             (forall p, pathAnchored (state p) ->
                        pathAnchored (state (f p))) ->
             Forall (fun p => pathAnchored (state p)) (map f ps)).
  { intros f Hf. apply Forall_map. eapply Forall_impl; [|exact H].
    exact Hf. }
  destruct act; cbn [step app_env projectiles].
  - apply Forall_app; split; [exact H|].
    constructor; [apply pathAnchored_freshState | constructor].
  - destruct (List.length ps <=? 1)%nat; [exact H|]. cbn.
    apply Forall_forall; intros p Hin.
    apply filter_In in Hin. rewrite Forall_forall in H. now apply H.
  - apply K. intros p Hp. unfold updateProjectileConfig1.
    destruct (negb _); [exact Hp | apply pathAnchored_freshState].
  - destruct (_ || _); [|exact H]. apply K. intros p Hp.
    unfold envEffect1. destruct (isPlaying (state p)); [exact Hp|].
    exists []. reflexivity.
  - apply K. intros p Hp. unfold launchProjectile1.
    repeat match goal with
           | |- context [if ?c then _ else _] => destruct c
           end; try exact Hp; try apply pathAnchored_freshState;
      destruct Hp as [rest Hr]; exists rest; exact Hr.
  - apply K. intros p _. apply pathAnchored_freshState.
  - apply K. intros p _. apply pathAnchored_freshState.
  - apply K. apply pathAnchored_animate1.
Qed.

(** X21. In every state the application reaches, each projectile's path is not
    empty and its first point is the stored start position. *)
Theorem path_starts_at_startPosition (acts : list Action) :
  Forall (fun p => exists rest,
                     path (state p) = startPosition (state p) :: rest)
         (projectiles (run acts)).
Proof.
  unfold run.
  assert (G : forall a,
             Forall (fun p => pathAnchored (state p)) (projectiles a) ->
             Forall (fun p => pathAnchored (state p))
                    (projectiles (fold_left step acts a))).
  { induction acts as [|act acts IH]; intros a H; cbn; [exact H|].
    apply IH, pathAnchored_step, H. }
  apply G. unfold initialApp; cbn [projectiles].
  repeat constructor. exists []. reflexivity.
Qed.

(** * The canvas and the stats panel *)

(** ** Screen coordinates *)

(** X22. [fromScreen] undoes [toScreen] and [toScreen] undoes [fromScreen]. *)
Theorem toScreen_fromScreen_roundtrip (p s : Vector2) :
  fromScreen (toScreen p) = p /\ toScreen (fromScreen s) = s.
Proof.
  destruct p as [px py], s as [sx sy].
  unfold fromScreen, toScreen, SCALE, PADDING, VIEW_HEIGHT; cbn [x y].
  split; f_equal; field.
Qed.

(** The screen's vertical axis points down: a higher point has a smaller
    screen y, and the foot of the incline is drawn at (60, 540). *)
Lemma toScreen_origin : toScreen origin = {| x := 60; y := 540 |}.
Proof.
  unfold toScreen, origin, SCALE, PADDING, VIEW_HEIGHT; cbn [x y].
  f_equal; lra.
Qed.

(** ** [Math.atan2] *)

Lemma atan_nonpos a : a <= 0 -> atan a <= 0.
Proof.
  intros [H | ->]; [|rewrite atan_0; lra].
  apply atan_increasing in H. rewrite atan_0 in H. lra.
Qed.

Lemma atan_pos a : 0 < a -> 0 < atan a.
Proof. intros H. apply atan_increasing in H. now rewrite atan_0 in H. Qed.

Lemma atan2_range dy dx : - PI < atan2 dy dx <= PI.
Proof.
  pose proof PI_RGT_0 as P. unfold atan2.
  destruct (0 <? dx) eqn:E1.
  - pose proof (atan_bound (dy / dx)). lra.
  - destruct (dx <? 0) eqn:E2.
    + apply ltb_true in E2. pose proof (atan_bound (dy / dx)) as B.
      destruct (0 <=? dy) eqn:E3.
      * apply leb_true in E3.
        assert (dy / dx <= 0).
        { unfold Rdiv. pose proof (Rinv_lt_0_compat dx E2). nra. }
        pose proof (atan_nonpos _ H). lra.
      * apply leb_false in E3.
        assert (0 < dy / dx).
        { unfold Rdiv. pose proof (Rinv_lt_0_compat dx E2). nra. }
        pose proof (atan_pos _ H). lra.
    + destruct (0 <? dy); [lra|]. destruct (dy <? 0); lra.
Qed.

Lemma toDeg_range r : - PI < r <= PI -> -180 < toDeg r <= 180.
Proof.
  intros [L U]. pose proof PI_RGT_0 as P. unfold toDeg.
  split.
  - apply Rmult_lt_reg_r with PI; [exact P|].
    unfold Rdiv. rewrite Rmult_assoc, Rinv_l by lra. lra.
  - apply Rmult_le_reg_r with PI; [exact P|].
    unfold Rdiv. rewrite Rmult_assoc, Rinv_l by lra. lra.
Qed.

Lemma normalizeBeta_range b : -540 <= b <= 540 ->
  -180 <= normalizeBeta b <= 180.
Proof.
  intros H. unfold normalizeBeta.
  destruct (b >? 180) eqn:E1.
  - apply gtb_true in E1.
    destruct (b - 360 <? -180) eqn:E2.
    + apply ltb_true in E2. lra.
    + apply ltb_false in E2. lra.
  - apply gtb_false in E1.
    destruct (b <? -180) eqn:E2.
    + apply ltb_true in E2. lra.
    + apply ltb_false in E2. lra.
Qed.

Lemma clamp_range a lo hi : lo <= hi -> lo <= Rmin (Rmax a lo) hi <= hi.
Proof.
  intros H. split; [|apply Rmin_r].
  apply Rmin_glb; [apply Rmax_r | exact H].
Qed.

(** ** Dragging *)

(** X23. Dragging the incline handle always asks for an environment that differs
    from the current one in the incline angle only, and the new angle lies
    in [0, 80] wherever the pointer is. *)
Theorem handlePointerMove_incline (r client : Vector2)
    (env : EnvironmentConfig) (ps : list ProjectileEntity) :
  exists deg,
    handlePointerMove (Some "incline"%string) (Some r) client env ps
    = Some (SetEnv (withAngleIncline env deg))
    /\ 0 <= deg <= 80.
Proof.
  eexists. split; [reflexivity|]. apply clamp_range. lra.
Qed.

(** X24. Dragging a velocity handle only ever edits a projectile that is in the
    list under the dragged id and is not playing; the edit sets the speed
    and the launch angle and nothing else; the speed lies in [1, 60] (the
    velocity scale it divides by being non-zero), and the launch angle in
    [-180, 180] when the incline angle is in [-360, 360] (the incline
    handle keeps it in [0, 80]). *)
Theorem handlePointerMove_velocity (dragTarget : option string)
    (rect : option Vector2) (client : Vector2) (env : EnvironmentConfig)
    (ps : list ProjectileEntity) (id : string) (u : PartialConfig) :
  handlePointerMove dragTarget rect client env ps
  = Some (UpdateProjectileConfig id u) ->
  dragTarget = Some id
  /\ (exists proj, find (fun p => String.eqb (eid p) id) ps = Some proj
                   /\ eid proj = id
                   /\ isPlaying (state proj) = false)
  /\ (p_cid u = None /\ p_name u = None /\ p_color u = None
      /\ p_startPos u = None)
  /\ (exists speed, p_v0 u = Some speed
                    /\ (scaleVelocity env <> 0 -> 1 <= speed <= 60))
  /\ (exists beta, p_angleLaunch u = Some beta
                   /\ (-360 <= angleIncline env <= 360 ->
                       -180 <= beta <= 180)).
Proof.
  unfold handlePointerMove.
  destruct dragTarget as [target|]; [|discriminate].
  destruct target as [|c target']; [discriminate|].
  destruct rect as [r|]; [|discriminate].
  set (target := String c target').
  destruct (String.eqb target "incline"); [discriminate|].
  destruct (find _ ps) as [proj|] eqn:F; [|discriminate].
  destruct (isPlaying (state proj)) eqn:P; cbn [negb]; [discriminate|].
  cbv zeta. intros H. injection H as <- <-.
  split; [reflexivity|]. split.
  - exists proj. apply find_some in F as F'. destruct F' as [_ F'].
    apply String.eqb_eq in F'. repeat split; assumption.
  - split; [repeat split|]. split.
    + eexists; split; [reflexivity|]. intros _. apply clamp_range. lra.
    + eexists; split; [reflexivity|]. intros Ha.
      apply normalizeBeta_range.
      match goal with
      | |- _ <= toDeg (atan2 ?a ?b) - _ <= _ =>
          pose proof (toDeg_range _ (atan2_range a b))
      end. lra.
Qed.

Lemma handlePointerMove_velocity_witness :
  let idle := createProjectile initialEnv "p1" "A" "#ef4444" noUpdates in
  exists u,
    handlePointerMove (Some "p1"%string) (Some origin)
      {| x := 120; y := 480 |} initialEnv [idle]
    = Some (UpdateProjectileConfig "p1" u)
    /\ (exists speed, p_v0 u = Some speed /\ 1 <= speed <= 60)
    /\ (exists beta, p_angleLaunch u = Some beta /\ -180 <= beta <= 180).
Proof.
  intros idle. eexists. split; [reflexivity|].
  destruct (handlePointerMove_velocity (Some "p1"%string) (Some origin)
              {| x := 120; y := 480 |} initialEnv [idle] _ _ eq_refl)
    as (_ & _ & _ & (speed & Hs & Rs) & (beta & Hb & Rb)).
  split.
  - exists speed. split; [exact Hs|]. apply Rs. cbn. lra.
  - exists beta. split; [exact Hb|]. apply Rb. cbn. lra.
Defined.

(** X25. A pointer move does nothing when nothing is dragged, when there is no
    svg element, when the dragged id names no projectile, or when the
    dragged projectile is playing. *)
Theorem handlePointerMove_ignored (dragTarget : option string)
    (rect : option Vector2) (client : Vector2) (env : EnvironmentConfig)
    (ps : list ProjectileEntity) (id : string) (proj : ProjectileEntity) :
  handlePointerMove None rect client env ps = None
  /\ handlePointerMove dragTarget None client env ps = None
  /\ (id <> "incline"%string ->
      find (fun p => String.eqb (eid p) id) ps = None ->
      handlePointerMove (Some id) rect client env ps = None)
  /\ (id <> "incline"%string ->
      find (fun p => String.eqb (eid p) id) ps = Some proj ->
      isPlaying (state proj) = true ->
      handlePointerMove (Some id) rect client env ps = None).
Proof.
  unfold handlePointerMove. split; [reflexivity|]. split.
  - destruct dragTarget as [[|c s]|]; reflexivity.
  - split; intros Hn F.
    + destruct id as [|c s]; [reflexivity|].
      destruct rect; [|reflexivity].
      apply String.eqb_neq in Hn. rewrite Hn, F. reflexivity.
    + intros P. destruct id as [|c s]; [reflexivity|].
      destruct rect; [|reflexivity].
      apply String.eqb_neq in Hn. rewrite Hn, F, P. reflexivity.
Qed.

Lemma handlePointerMove_ignored_witness :
  handlePointerMove (Some "p2"%string) (Some origin) {| x := 120; y := 480 |}
    flatEnv [droppedProjectile] = None
  /\ handlePointerMove (Some "p1"%string) (Some origin)
       {| x := 120; y := 480 |} flatEnv [droppedProjectile] = None.
Proof.
  split.
  - destruct (handlePointerMove_ignored None (Some origin)
                {| x := 120; y := 480 |} flatEnv [droppedProjectile] "p2"
                droppedProjectile) as (_ & _ & H & _).
    apply H; [discriminate | reflexivity].
  - destruct (handlePointerMove_ignored None (Some origin)
                {| x := 120; y := 480 |} flatEnv [droppedProjectile] "p1"
                droppedProjectile) as (_ & _ & _ & H).
    apply H; [discriminate | reflexivity | reflexivity].
Defined.

(** ** The stats panel *)

(** X26. For a projectile that was just created, edited, reset or launched, the
    panel shows the speed [|v0|] and the displacement 0; for one that has
    landed on the incline it shows the speed 0. *)
Theorem statsPanel_fresh (b : bool) (cfg : ProjectileConfig)
    (env : EnvironmentConfig) (s : SimulationState) :
  statsSpeed (freshState b (getInitialState cfg env)) = Rabs (v0 cfg)
  /\ statsDist (freshState b (getInitialState cfg env)) = 0
  /\ (velocity s = {| x := 0; y := 0 |} -> statsSpeed s = 0).
Proof.
  split; [|split].
  - unfold statsSpeed.
    pose proof (getInitialState_speed_sq cfg env) as E.
    cbn [freshState velocity]. cbv zeta in E. rewrite E.
    rewrite <- Rsqr_pow2. apply sqrt_Rsqr_abs.
  - unfold statsDist, statsDisplacement; cbn.
    replace (_ + _) with 0 by ring. apply sqrt_0.
  - intros H. unfold statsSpeed. rewrite H; cbn.
    replace (_ + _) with 0 by ring. apply sqrt_0.
Qed.

Lemma statsPanel_fresh_witness : statsSpeed (state landedProjectile) = 0.
Proof.
  apply (statsPanel_fresh true (config landedProjectile) initialEnv
           (state landedProjectile)).
  reflexivity.
Defined.

(** * Ids, adding and removing *)

Lemma showNat_inj n m : showNat n = showNat m -> n = m.
Proof.
  unfold showNat. intros H.
  apply (f_equal DecimalString.NilZero.uint_of_string) in H.
  assert (N : forall k, Nat.to_uint k <> Decimal.Nil).
  { intros k. rewrite <- (DecimalNat.Unsigned.of_to k) at 1.
    rewrite DecimalNat.Unsigned.to_of. apply DecimalFacts.unorm_nonnil. }
  rewrite !DecimalString.NilZero.usu in H by apply N.
  injection H as H. now apply DecimalNat.Unsigned.to_uint_inj.
Qed.

Lemma step_ids_edit a id updates :
  map eid (projectiles (step a (UpdateProjectileConfig id updates)))
  = map eid (projectiles a).
Proof.
  destruct a as [env ps]; cbn. rewrite map_map. apply map_ext; intros p.
  unfold updateProjectileConfig1. destruct (negb _); reflexivity.
Qed.

Lemma step_ids_kept a act :
  match act with
  | AddProjectile _ _ _ | RemoveProjectile _ => True
  | _ => map eid (projectiles (step a act)) = map eid (projectiles a)
  end.
Proof.
  assert (K : forall b, idsAndConfigs b = idsAndConfigs a ->
                        map eid (projectiles b) = map eid (projectiles a)).
  { intros b H. apply (f_equal (map fst)) in H. unfold idsAndConfigs in H.
    rewrite !map_map in H. exact H. }
  destruct (step_ids_configs_kept a EmptyString) as (A & _ & C & D).
  destruct act as [| |i u|env'|i| | |]; try exact I.
  - apply step_ids_edit.
  - apply K, step_setEnv_ids_configs.
  - destruct (step_ids_configs_kept a i) as (_ & B & _). apply K, B.
  - apply K, C.
  - apply K, D.
  - apply K, A.
Qed.

Lemma map_eid_filter id ps :
  map eid (filter (fun p => negb (eid p =? id)%string) ps)
  = filter (fun i => negb (i =? id)%string) (map eid ps).
Proof. symmetry. apply filter_map_swap. Qed.

Lemma filter_absent id (l : list string) :
  ~ In id l -> filter (fun i => negb (i =? id)%string) l = l.
Proof.
  induction l as [|i l IH]; intros H; [reflexivity|]. cbn.
  destruct (i =? id)%string eqn:E.
  - apply String.eqb_eq in E. exfalso. apply H. now left.
  - cbn. f_equal. apply IH. intros Hin. apply H. now right.
Qed.

Lemma filter_present id (l : list string) :
  NoDup l -> In id l ->
  S (List.length (filter (fun i => negb (i =? id)%string) l))
  = List.length l.
Proof.
  induction l as [|i l IH]; intros N H; [destruct H|].
  apply NoDup_cons_iff in N as [Ni N]. cbn [filter].
  destruct (i =? id)%string eqn:E; cbn [negb].
  - apply String.eqb_eq in E; subst i.
    rewrite (filter_absent id l Ni). reflexivity.
  - cbn [List.length]. f_equal. apply IH; [exact N|].
    destruct H as [-> | H]; [|exact H].
    rewrite String.eqb_refl in E. discriminate.
Qed.

Lemma idsWellFormed_initial : idsWellFormed initialShell.
Proof.
  unfold idsWellFormed; cbn. split; [|split].
  - repeat constructor. intros [].
  - intros id [<- | []]. exists 1%nat. split; [lia | reflexivity].
  - discriminate.
Qed.

Lemma idsWellFormed_with s a :
  map eid (projectiles a) = map eid (projectiles (core s)) ->
  idsWellFormed s -> idsWellFormed (withCore s a).
Proof. unfold idsWellFormed; cbn. now intros ->. Qed.

Lemma idsWellFormed_step s act :
  idsWellFormed s -> idsWellFormed (shellStep s act).
Proof.
  intros (N & F & E). destruct act; cbn [shellStep].
  - (* add *)
    unfold addProjectile, idsWellFormed; cbn [core projectIdCounter].
    destruct (core s) as [env ps] eqn:Ec. cbn [step app_env projectiles].
    cbn [projectiles] in N, F, E.
    rewrite map_app; cbn [map createProjectile eid].
    split; [|split].
    + apply NoDup_app; [exact N | repeat constructor; intros [] |].
      intros id Hin [<- | []].
      destruct (F _ Hin) as (k & Hk & Heq).
      injection Heq as Heq. apply showNat_inj in Heq. lia.
    + intros id Hin. apply in_app_or in Hin as [Hin | [<- | []]].
      * destruct (F _ Hin) as (k & Hk & Heq). exists k. split; [lia|exact Heq].
      * exists (projectIdCounter s + 1)%nat. split; [lia | reflexivity].
    + intros H. apply app_eq_nil in H as [_ H]. discriminate.
  - (* remove *)
    unfold removeProjectile.
    destruct (projectiles (core s)) as [|first [|second rest]] eqn:Ep;
      try (unfold idsWellFormed; rewrite Ep; now repeat split).
    unfold idsWellFormed; cbn [core projectIdCounter].
    destruct (core s) as [env ps]. cbn [projectiles] in *. subst ps.
    cbn [step app_env projectiles].
    change (List.length (first :: second :: rest) <=? 1)%nat with false.
    cbn [projectiles]. rewrite map_eid_filter.
    split; [|split].
    + now apply NoDup_filter.
    + intros i Hin. apply filter_In in Hin as [Hin _]. now apply F.
    + intros H.
      destruct (in_dec string_dec id
                  (map eid (first :: second :: rest))) as [Hin | Hout].
      * pose proof (filter_present id _ N Hin) as L.
        rewrite H in L. cbn in L. lia.
      * rewrite (filter_absent id _ Hout) in H. discriminate.
  - (* select *)
    exact (conj N (conj F E)).
  - apply idsWellFormed_with; [apply step_ids_edit | exact (conj N (conj F E))].
  - apply idsWellFormed_with;
      [apply (step_ids_kept (core s) (SetEnv env'))
      | exact (conj N (conj F E))].
  - apply idsWellFormed_with;
      [apply (step_ids_kept (core s) (LaunchProjectile id))
      | exact (conj N (conj F E))].
  - apply idsWellFormed_with;
      [apply (step_ids_kept (core s) LaunchAll) | exact (conj N (conj F E))].
  - apply idsWellFormed_with;
      [apply (step_ids_kept (core s) ResetAll) | exact (conj N (conj F E))].
  - apply idsWellFormed_with;
      [apply (step_ids_kept (core s) Animate) | exact (conj N (conj F E))].
Qed.

Lemma idsWellFormed_run acts : idsWellFormed (runShell acts).
Proof.
  unfold runShell.
  assert (G : forall s, idsWellFormed s ->
                        idsWellFormed (fold_left shellStep acts s)).
  { induction acts as [|act acts IH]; intros s H; cbn; [exact H|].
    apply IH, idsWellFormed_step, H. }
  apply G, idsWellFormed_initial.
Qed.

(** X27. In every state the application reaches, the projectile ids are pairwise
    distinct, each is "p" followed by a counter value that was already
    handed out, and the list is not empty: the last projectile cannot be
    removed. *)
Theorem ids_distinct_list_nonempty (acts : list ShellAction) :
  let s := runShell acts in
  let ids := map eid (projectiles (core s)) in
  NoDup ids
  /\ (forall id, In id ids ->
        exists k, (1 <= k <= projectIdCounter s)%nat
                  /\ id = ("p" ++ showNat k)%string)
  /\ (1 <= List.length (projectiles (core s)))%nat.
Proof.
  destruct (idsWellFormed_run acts) as (N & F & E).
  split; [exact N|]. split; [exact F|].
  destruct (projectiles (core (runShell acts))); [now destruct E | cbn; lia].
Qed.

(** X28. Removing an id that is in the list, when the list has at least two
    projectiles, removes exactly one projectile: the list is one shorter,
    the id is gone and every other id stays.  With a single projectile
    left, or an id that is not in the list, nothing is removed. *)
Theorem removeProjectile_exactly_one (acts : list ShellAction)
    (id : string) :
  let s := runShell acts in
  let ps := projectiles (core s) in
  let ps' := projectiles (core (removeProjectile id s)) in
  (In id (map eid ps) -> (2 <= List.length ps)%nat ->
   S (List.length ps') = List.length ps
   /\ ~ In id (map eid ps')
   /\ forall other, other <> id ->
        (In other (map eid ps') <-> In other (map eid ps)))
  /\ ((List.length ps <= 1)%nat -> removeProjectile id s = s)
  /\ (~ In id (map eid ps) -> ps' = ps).
Proof.
  intros s ps ps'.
  destruct (idsWellFormed_run acts) as (N & _ & _). fold s in N.
  subst ps'. unfold removeProjectile. fold ps. fold ps in N.
  destruct ps as [|first [|second rest]] eqn:Ep.
  - split; [intros []|]. split; [reflexivity|]. intros _. exact Ep.
  - split; [cbn; intros _ H; lia|]. split; [reflexivity|].
    intros _. exact Ep.
  - cbn [core]. destruct (core s) as [env ps0] eqn:Ec.
    unfold ps in Ep. cbn [projectiles] in Ep. subst ps0.
    cbn [step app_env projectiles].
    change (List.length (first :: second :: rest) <=? 1)%nat with false.
    cbn [projectiles].
    split; [|split].
    + intros Hin _. split; [|split].
      * rewrite <- (length_map eid), map_eid_filter.
        rewrite (filter_present id _ N Hin). now rewrite length_map.
      * rewrite map_eid_filter. intros H. apply filter_In in H as [_ H].
        rewrite String.eqb_refl in H. discriminate.
      * intros other Ho. rewrite map_eid_filter, filter_In.
        apply String.eqb_neq in Ho. rewrite Ho. cbn. tauto.
    + cbn. intros H. lia.
    + intros Hout.
      assert (K : forall l,
                 ~ In id (map eid l) ->
                 filter (fun p => negb (eid p =? id)%string) l = l).
      { induction l as [|p l IH]; intros H; [reflexivity|]. cbn.
        destruct (eid p =? id)%string eqn:E.
        - apply String.eqb_eq in E. exfalso. apply H. now left.
        - cbn. f_equal. apply IH. intros Hi. apply H. now right. }
      now apply K.
Qed.

Lemma removeProjectile_exactly_one_witness :
  let s := runShell [ClickAdd "B"%string] in
  S (List.length (projectiles (core (removeProjectile "p2" s))))
  = List.length (projectiles (core s))
  /\ removeProjectile "p1" initialShell = initialShell
  /\ projectiles (core (removeProjectile "p7" s)) = projectiles (core s).
Proof.
  intros s. split; [|split].
  - apply (removeProjectile_exactly_one [ClickAdd "B"%string] "p2").
    + cbn. right. left. reflexivity.
    + cbn. lia.
  - apply (removeProjectile_exactly_one [] "p1"). cbn. lia.
  - apply (removeProjectile_exactly_one [ClickAdd "B"%string] "p7").
    cbn. intros [H | [H | []]]; discriminate.
Defined.

(** X29. Adding selects the new projectile: after [addProjectile] the selected
    projectile exists, is the one just created (last in the list), carries
    a fresh id and is idle at time 0; the counter has grown by one. *)
Theorem addProjectile_selects_new (acts : list ShellAction) (nm : string) :
  let s := runShell acts in
  let s' := addProjectile nm s in
  exists new,
    activeProjectile s' = Some new
    /\ projectiles (core s') = projectiles (core s) ++ [new]
    /\ eid new = ("p" ++ showNat (projectIdCounter s + 1))%string
    /\ ~ In (eid new) (map eid (projectiles (core s)))
    /\ state new
       = freshState false (getInitialState (config new) (app_env (core s)))
    /\ projectIdCounter s' = (projectIdCounter s + 1)%nat.
Proof.
  intros s s'. destruct (idsWellFormed_run acts) as (_ & F & _). fold s in F.
  subst s'. unfold addProjectile, activeProjectile; cbn [core activeId
    projectIdCounter].
  destruct (core s) as [env ps] eqn:Ec. cbn [step app_env projectiles] in *.
  eexists. split; [|split; [reflexivity|]].
  2:{ cbn [createProjectile eid state config]. split; [reflexivity|].
      split; [|split; reflexivity].
      intros Hin. destruct (F _ Hin) as (k & Hk & Heq).
      injection Heq as Heq. apply showNat_inj in Heq. lia. }
  assert (Fresh : forall l,
             (forall id, In id (map eid l) ->
                exists k, (1 <= k <= projectIdCounter s)%nat
                          /\ id = ("p" ++ showNat k)%string) ->
             forall q,
               eid q = ("p" ++ showNat (projectIdCounter s + 1))%string ->
               find (fun p => (eid p =? eid q)%string) (l ++ [q]) = Some q).
  { induction l as [|p l IH]; intros Hl q Hq; cbn.
    - now rewrite String.eqb_refl.
    - destruct (eid p =? eid q)%string eqn:E.
      + apply String.eqb_eq in E.
        destruct (Hl (eid p) (or_introl eq_refl)) as (k & Hk & Heq).
        rewrite E, Hq in Heq. injection Heq as Heq.
        apply showNat_inj in Heq. lia.
      + apply IH; [|exact Hq]. intros id Hin. apply Hl. now right. }
  apply (Fresh ps F (createProjectile env _ nm _ noUpdates)). reflexivity.
Qed.

(** X30. Removing the selected projectile selects the projectile that was first
    before the removal.  When the selected projectile is itself the first
    one, the selection keeps the removed id and no projectile is selected
    any more. *)
Theorem removeProjectile_selection (acts : list ShellAction)
    (first second : ProjectileEntity) (rest : list ProjectileEntity) :
  let s := runShell acts in
  projectiles (core s) = first :: second :: rest ->
  (forall id, activeId s = id ->
     activeId (removeProjectile id s) = eid first)
  /\ (forall id, activeId s <> id ->
        activeId (removeProjectile id s) = activeId s)
  /\ (activeId s = eid first ->
      activeProjectile (removeProjectile (eid first) s) = None)
  /\ (activeId s = eid second ->
      activeProjectile (removeProjectile (eid second) s) = Some first).
Proof.
  intros s Ep.
  destruct (idsWellFormed_run acts) as (N & _ & _). fold s in N.
  rewrite Ep in N. cbn [map] in N.
  apply NoDup_cons_iff in N as [N1 N].
  unfold activeProjectile, removeProjectile. rewrite Ep. cbn [activeId core].
  split; [|split; [|split]].
  - intros id <-. now rewrite String.eqb_refl.
  - intros id H. apply String.eqb_neq in H. now rewrite H.
  - intros H. rewrite H, String.eqb_refl.
    destruct (core s) as [env ps]. cbn [projectiles] in Ep. subst ps.
    cbn [step app_env projectiles].
    change (List.length (first :: second :: rest) <=? 1)%nat with false.
    cbn [projectiles].
    destruct (find _ _) as [q|] eqn:Fq; [|reflexivity].
    apply find_some in Fq as [Hin Hq]. apply filter_In in Hin as [_ Hne].
    rewrite Hq in Hne. discriminate.
  - intros H. rewrite H, String.eqb_refl.
    destruct (core s) as [env ps]. cbn [projectiles] in Ep. subst ps.
    cbn [step app_env projectiles].
    change (List.length (first :: second :: rest) <=? 1)%nat with false.
    cbn [projectiles filter].
    assert (D : (eid first =? eid second)%string = false).
    { apply String.eqb_neq. intros E. apply N1. left. now rewrite E. }
    rewrite D. cbn [negb find]. now rewrite String.eqb_refl.
Qed.

Lemma removeProjectile_selection_witness :
  let s := runShell [ClickAdd "B"%string; Select "p1"%string] in
  activeId (removeProjectile "p1" s) = "p1"%string
  /\ activeProjectile (removeProjectile "p1" s) = None.
Proof.
  intros s.
  destruct (removeProjectile_selection
              [ClickAdd "B"%string; Select "p1"%string]
              (nth 0 (projectiles (core s)) landedProjectile)
              (nth 1 (projectiles (core s)) landedProjectile)
              [] eq_refl) as (A & _ & C & _).
  split.
  - apply (A "p1"%string). reflexivity.
  - apply C. reflexivity.
Defined.

(** * Ticks and the prediction *)

Lemma nth_error_map_seq (A : Type) (f : nat -> A) m k :
  (k < m)%nat -> nth_error (map f (seq 0 m)) k = Some (f k).
Proof.
  intros H. rewrite nth_error_map, nth_error_seq.
  apply Nat.ltb_lt in H. rewrite H. reflexivity.
Qed.

(** X16. At time scale 1 six frames make one prediction step: a projectile
    launched by launch-all and still flying after [6 k] ticks is at the
    predictor's sample for time [0.1 k], which is the [k]-th point of the
    predicted array when the array is that long. *)
Theorem ticks_meet_prediction (env : EnvironmentConfig) (k : nat)
    (p : ProjectileEntity) (pts : list Vector2) :
  timeScale env = 1 ->
  let q := ticks env (6 * k) (launchAll1 env p) in
  isPlaying (state q) = true ->
  isFinished (state q) = false ->
  position (state q) = positionAt (config p) env (INR k * 0.1)
  /\ (predictTrajectory (config p) env = Some pts ->
      (k < List.length pts)%nat ->
      nth_error pts k = Some (position (state q))).
Proof.
  intros Hs q A B.
  destruct (ticks_launch_state env (6 * k) p A B) as (P & _).
  assert (E : t (state q) = INR k * 0.1).
  { unfold q. rewrite (ticks_time env (6 * k) _ A B).
    cbn [launchAll1 state freshState t].
    unfold tick_dt. rewrite Hs, mult_INR.
    replace (INR 6) with 6 by (rewrite INR_IZR_INZ; reflexivity). lra. }
  fold q in P. rewrite E in P.
  split; [exact P|].
  intros Hp Hk.
  destruct (predictTrajectory_run (config p) env) as (n & _ & Hp' & _).
  rewrite Hp in Hp'. injection Hp' as Hp'.
  assert (L : List.length pts = S n).
  { rewrite Hp'. cbn [seq map List.length].
    now rewrite length_map, length_seq. }
  rewrite P.
  replace pts with (map (fun j => positionAt (config p) env (INR j * 0.1))
                        (seq 0 (S n))).
  apply nth_error_map_seq. lia.
Qed.

(** Ticks inside the grace period: a projectile launched at time 0 whose
    trajectory stays inside the bounds up to 0.1 s is still flying. *)
Lemma ticks_grace env p n :
  isPlaying (state p) = true ->
  isFinished (state p) = false ->
  t (state p) = 0 ->
  0 <= tick_dt env ->
  INR n * tick_dt env <= 0.1 ->
  (forall time, 0 <= time <= 0.1 ->
     let ph := calculatePhysics time env (startPosition (state p))
                 (vel (getInitialState (config p) env)) in
     -30 <= y (ph_position ph) /\ x (ph_position ph) <= 250) ->
  isPlaying (state (ticks env n p)) = true
  /\ isFinished (state (ticks env n p)) = false
  /\ t (state (ticks env n p)) = INR n * tick_dt env.
Proof.
  intros Hp Hf Ht Hd Hn Hb.
  induction n as [|n IH].
  - cbn. repeat split; try assumption. lra.
  - rewrite S_INR in Hn.
    destruct IH as (A & B & T); [pose proof (pos_INR n); nra|].
    rewrite ticks_S.
    destruct (ticks_keeps env n p) as (_ & C & S0).
    assert (N : tick_nextT env (ticks env n p) = INR (S n) * tick_dt env).
    { unfold tick_nextT. rewrite T, S_INR. lra. }
    assert (G : 0 <= tick_nextT env (ticks env n p) <= 0.1).
    { rewrite N, S_INR. pose proof (pos_INR n). split; nra. }
    specialize (Hb _ G). cbv zeta in Hb.
    destruct (animate1_grace env (ticks env n p) A B (proj2 G))
      as (A' & B' & T' & _).
    + unfold tick_physics. rewrite C, S0. apply Hb.
    + unfold tick_physics. rewrite C, S0. apply Hb.
    + repeat split; try assumption. now rewrite T', N.
Qed.

Lemma ticks_meet_prediction_witness :
  let p := createProjectile initialEnv "p1" "A" "#ef4444" noUpdates in
  position (state (ticks initialEnv (6 * 1) (launchAll1 initialEnv p)))
  = positionAt (config p) initialEnv (INR 1 * 0.1).
Proof.
  intros p.
  assert (G : isPlaying (state (ticks initialEnv 6 (launchAll1 initialEnv p)))
              = true
              /\ isFinished
                   (state (ticks initialEnv 6 (launchAll1 initialEnv p)))
                 = false).
  { destruct (ticks_grace initialEnv (launchAll1 initialEnv p) 6)
      as (A & B & _); try reflexivity.
    - unfold tick_dt; cbn. lra.
    - replace (INR 6) with 6 by (rewrite INR_IZR_INZ; reflexivity).
      unfold tick_dt; cbn. lra.
    - intros time Ht. cbn.
      pose proof (SIN_bound (toRad 30 + toRad 45)) as [L _].
      pose proof (COS_bound (toRad 30 + toRad 45)) as [_ U].
      split; nra.
    - now split. }
  apply (ticks_meet_prediction initialEnv 1 p []).
  - cbn. lra.
  - apply G.
  - apply G.
Defined.
